(** * ngx-jwt-auth: a shallow embedding of the session state machine

    The development follows the TypeScript sources:
    - [auth.state.ts]       -> Module [AuthState]   (the token holder)
    - [auth.interceptor.ts] -> Modules [Http] and [AuthInterceptor]
                               (the request decorator)
    - [auth.backend.ts], [user-service/user.service.ts]
                            -> Modules [AuthBackend] and [AuthUserService]
                               (the two ports, as records of functions)
    - the [AuthService] class -> Module [AuthService]

    JavaScript values are modelled as follows.  A value that may be [null]
    is an [option]; strings are [string]s (sequences of bytes: the only
    separator the code looks for is the ASCII space, which never occurs
    inside a multi-byte UTF-8 sequence); a thrown [Error] is a [Thrown]
    carrying the message of the source.  The subjects of RxJS are fields of
    the state together with the list of their observers; time is a clock in
    milliseconds that only [advance] moves. *)

From Stdlib Require Import Ascii.
From stdpp Require Import gmap strings list.

Local Open Scope string_scope.
Local Open Scope list_scope.

(** ** JavaScript strings *)

Module Js.

(** [splitOn p s] cuts [s] at every character satisfying [p].  As for
    [String.prototype.split] with a one-character separator, the result has
    one more segment than there are separators, so it is never empty. *)
Fixpoint splitOn (p : ascii -> bool) (s : string) : list string :=
  match s with
  | EmptyString => [EmptyString]
  | String c rest =>
      if p c then EmptyString :: splitOn p rest
      else match splitOn p rest with
           | [] => [String c EmptyString]
           | seg :: segs => String c seg :: segs
           end
  end.

Definition isSpace (c : ascii) : bool := Ascii.eqb c " "%char.

(** [token.split(' ')] *)
Definition split_space (s : string) : list string := splitOn isSpace s.

(** [parts.pop()]: the last element, [undefined] (here [None]) on an empty
    array. *)
Definition pop {A} (parts : list A) : option A := last parts.

(** No character of [s] satisfies [p]. *)
Fixpoint lacks (p : ascii -> bool) (s : string) : bool :=
  match s with
  | EmptyString => true
  | String c rest => negb (p c) && lacks p rest
  end.

(** The white space of ECMAScript restricted to one byte: tab, line feed,
    vertical tab, form feed, carriage return and space. *)
Definition isWhitespace (c : ascii) : bool :=
  let n := nat_of_ascii c in
  (n =? 9)%nat || (n =? 10)%nat || (n =? 11)%nat || (n =? 12)%nat
  || (n =? 13)%nat || (n =? 32)%nat.

End Js.

(** ** auth.state.ts *)

Module AuthState.

(** The two subjects of [AuthState]: the value of the [token]
    [BehaviorSubject] ([null] at construction) and the number of
    notifications sent on [unauthorized]. *)
Record t := mk {
  token : option string;
  unauthorized : nat
}.

Definition init : t := {| token := None; unauthorized := 0 |}.

(** [getToken()] *)
Definition getToken (st : t) : option string := token st.

(** [this.token.next(token)] *)
Definition token_next (tok : string) (st : t) : t :=
  {| token := Some tok; unauthorized := unauthorized st |}.

(** [setToken(token)]: split at spaces; when there is a segment, publish
    the last one. *)
Definition setToken (raw : string) (st : t) : t :=
  let parts := Js.split_space raw in
  if (0 <? length parts)%nat then
    match Js.pop parts with
    | Some tok => token_next tok st
    | None => st
    end
  else st.

(** [triggerUnauthorized(error)] and [triggerHttpUnauthorized(error, request)] *)
Definition triggerUnauthorized (st : t) : t :=
  {| token := token st; unauthorized := S (unauthorized st) |}.

(** The setter as the specification words it: "splitting on whitespace
    and, if at least one segment exists, taking the last segment".  It is
    only used to compare with [setToken]. *)
Definition setToken_on_whitespace (raw : string) (st : t) : t :=
  let parts := Js.splitOn Js.isWhitespace raw in
  if (0 <? length parts)%nat then
    match Js.pop parts with
    | Some tok => token_next tok st
    | None => st
    end
  else st.

(** A raw value whose scheme and token are separated by a tab. *)
Definition tabbed : string := "Bearer" +:+ String "009"%char "abc123".

End AuthState.

(** ** auth.interceptor.ts *)

Module Http.

(** Lower-casing of the ASCII letters, as [HttpHeaders] does to header
    names before it uses them as keys. *)
Definition lowerChar (c : ascii) : ascii :=
  let n := nat_of_ascii c in
  if (65 <=? n)%nat && (n <=? 90)%nat then ascii_of_nat (n + 32) else c.

Fixpoint toLowerCase (s : string) : string :=
  match s with
  | EmptyString => EmptyString
  | String c rest => String (lowerChar c) (toLowerCase rest)
  end.

(** Angular's [HttpHeaders]: for each lower-cased name the list of its
    values. *)
Record HttpRequest := mkRequest {
  method : string;
  url : string;
  headers : gmap string (list string);
  body : string
}.

(** [headers.get(name)]: the first value of the header, or [null]. *)
Definition get (name : string) (hs : gmap string (list string)) : option string :=
  match hs !! toLowerCase name with
  | Some (v :: _) => Some v
  | _ => None
  end.

(** [headers.set(name, value)]: the header gets [value] as its only value. *)
Definition set (name value : string) (hs : gmap string (list string))
  : gmap string (list string) :=
  <[toLowerCase name := [value]]> hs.

(** [req.clone({setHeaders: {name: value}})]: a copy of the request in which
    the header is set. *)
Definition clone_setHeader (name value : string) (req : HttpRequest) : HttpRequest :=
  {| method := method req; url := url req;
     headers := set name value (headers req); body := body req |}.

(** What [intercept] sees of a response or of an error response. *)
Record HttpEvent := mkEvent {
  status : nat;
  responseHeaders : gmap string (list string);
  isError : bool
}.

End Http.

Module AuthInterceptor.

(** A string in a condition, as in [if (token)]: [null] and the empty
    string are falsy. *)
Definition truthy (v : option string) : bool :=
  match v with
  | Some (String _ _) => true
  | _ => false
  end.

(** The first statement of [intercept]: the request that is handed to
    [next.handle]. *)
Definition decorate (st : AuthState.t) (req : Http.HttpRequest) : Http.HttpRequest :=
  let token := AuthState.getToken st in
  if truthy token then
    match token with
    | Some tok => Http.clone_setHeader "Authorization" ("Bearer " +:+ tok) req
    | None => req
    end
  else req.

(** [handleResponseHeader(event)] *)
Definition handleResponseHeader (ev : Http.HttpEvent) (st : AuthState.t) : AuthState.t :=
  let authorization := Http.get "Authorization" (Http.responseHeaders ev) in
  if truthy authorization then
    match authorization with
    | Some raw => AuthState.setToken raw st
    | None => st
    end
  else st.

(** The two callbacks of [next.handle(req).do(...)], for one event. *)
Definition observe (ev : Http.HttpEvent) (st : AuthState.t) : AuthState.t :=
  let st1 := handleResponseHeader ev st in
  if Http.isError ev && (Http.status ev =? 401)%nat
  then AuthState.triggerUnauthorized st1
  else st1.

End AuthInterceptor.

(** ** Observables returned by the ports

    What an application-supplied port hands back is an observable the
    service only subscribes to: it is described by what a subscriber gets
    from it, the values in order and how it ends. *)

Module Rx.

Inductive Ending (E : Type) : Type :=
| Completes
| Errors (e : E)
| Pending.
Arguments Completes {E}.
Arguments Errors {E} e.
Arguments Pending {E}.

Record Trace (E A : Type) : Type := mkTrace {
  emitted : list A;
  ending : Ending E
}.
Arguments mkTrace {E A} emitted ending.
Arguments emitted {E A} _.
Arguments ending {E A} _.

(** [Observable.of(v)] *)
Definition of_ {E A} (v : A) : Trace E A := mkTrace [v] Completes.

(** [Observable.throw(e)] *)
Definition throwError {E A} (e : E) : Trace E A := mkTrace [] (Errors e).

Definition prepend {E A} (vs : list A) (t : Trace E A) : Trace E A :=
  mkTrace (vs ++ emitted t) (ending t).

(** [source.mergeMap(f)] when the inner observables deliver at once, as
    [Observable.of] does: the values of the inner observables in the order
    of the source; the first error ends the result; the result completes
    when the source and every inner observable have completed.  [open]
    tells whether an inner observable is still pending. *)
Fixpoint mergeMapFrom {E A B} (f : A -> Trace E B) (vs : list A)
    (fin : Ending E) (open : bool) : Trace E B :=
  match vs with
  | [] =>
      mkTrace [] (match fin with
                  | Completes => if open then Pending else Completes
                  | _ => fin
                  end)
  | v :: rest =>
      let inner := f v in
      match ending inner with
      | Errors e => mkTrace (emitted inner) (Errors e)
      | Completes => prepend (emitted inner) (mergeMapFrom f rest fin open)
      | Pending => prepend (emitted inner) (mergeMapFrom f rest fin true)
      end
  end.

Definition mergeMap {E A B} (f : A -> Trace E B) (src : Trace E A) : Trace E B :=
  mergeMapFrom f (emitted src) (ending src) false.

End Rx.

(** A method either throws synchronously or returns. *)
Inductive Thrown : Type := Error (message : string).

Inductive Outcome (A : Type) : Type :=
| Threw (err : Thrown)
| Returned (value : A).
Arguments Threw {A} err.
Arguments Returned {A} value.

(** The errors the specification names, with the messages of the source. *)
Definition MissingUserError : Thrown :=
  Error "Required user, but none found.".
Definition ReactivationError : Thrown :=
  Error "AuthService.activate: Can not activate `null` user.".
Definition MissingResolverError : Thrown :=
  Error "AuthService.activate: UserProvider dependency required.".
Definition MissingBackendError : Thrown :=
  Error "AuthService: You have not registered the AuthBackend.".

(** ** auth.backend.ts and user-service/user.service.ts: the ports

    [T] is the user type (an interface, so its values are objects), [R] the
    credentials, [X] stands for [Partial<T>], [I] for the user identifiers
    and [E] for whatever a port raises.  A user that may be [null] is an
    [option T]; an optional argument that was left out is [None]. *)

Module AuthBackend.
Record t (T R X E : Type) : Type := mk {
  deleteUserSession : option T -> Rx.Trace E unit;
  userFromCredentials : R -> Rx.Trace E (option T);
  createUserFromCredentials : R -> option X -> Rx.Trace E (option T)
}.
Arguments mk {T R X E}.
Arguments deleteUserSession {T R X E} _ _.
Arguments userFromCredentials {T R X E} _ _.
Arguments createUserFromCredentials {T R X E} _ _ _.
End AuthBackend.

Module AuthUserService.
Record t (T I E : Type) : Type := mk {
  find : I -> Rx.Trace E (option T);
  parseUser : option T -> Rx.Trace E (option T)
}.
Arguments mk {T I E}.
Arguments find {T I E} _ _.
Arguments parseUser {T I E} _ _.

(** The [parseUser] of the abstract class: [Observable.of(user)]. *)
Definition defaultParseUser {T E} (user : option T) : Rx.Trace E (option T) :=
  Rx.of_ user.
End AuthUserService.

(** ** The [AuthService] class *)

Module AuthService.

(** [v != null] *)
Definition nonNull {A} (v : option A) : bool :=
  match v with
  | Some _ => true
  | None => false
  end.

(** The delay of [Observable.of(user).delay(999999)], in milliseconds. *)
Definition stallDelay : N := 999999.

Section Types.
Variables T R X I E : Type.

(** The observers of the [currentUser] subject, each named by the
    subscription it belongs to: a subscriber of [user$]; a subscriber of
    [authenticated$], with the value [last] that its [distinctUntilChanged]
    compares with; the [mergeMap(() => this.currentUser)] of a
    [userRequired$] subscription. *)
Inductive UserObserver : Type :=
| UserStream (sid : nat)
| AuthenticatedStream (sid : nat) (last : option bool)
| UserRequiredInner (sid : nat).

(** The observers of the [activated] subject: the [whenActivated()] of a
    [userRequired$] subscription or of a [check()].  The one the
    constructor subscribes only writes to the console and is left out. *)
Inductive GateObserver : Type :=
| GateUserRequired (sid : nat)
| GateCheck (sid : nat).

(** A pending [delay]: at [due] the value [payload] is emitted to the
    [userRequired$] subscription [target]. *)
Record Timer : Type := mkTimer {
  due : N;
  target : nat;
  payload : option T
}.

(** What subscribers are told, in order: a value of one of the streams for
    the subscription [sid], a notification of [_userRequiredFails] (the side
    channel, [userRequiredFails$]), the result of a [check()]. *)
Inductive Event : Type :=
| UserEmitted (sid : nat) (user : option T)
| AuthenticatedEmitted (sid : nat) (value : bool)
| UserRequiredEmitted (sid : nat) (user : option T)
| UserRequiredFailed
| CheckResolved (sid : nat) (value : bool).

(** The methods of the ports that were invoked, with their arguments. *)
Inductive PortCall : Type :=
| CallDeleteUserSession (user : option T)
| CallUserFromCredentials (credentials : R)
| CallCreateUserFromCredentials (credentials : R) (extra : option X)
| CallFind (userId : I).

(** The fields of the service and what has been observed of it.  [state],
    [backend] and [userProvider] are the constructor's arguments; an
    optional dependency that was not provided is [None]. *)
Record t : Type := mk {
  state : AuthState.t;
  backend : option (AuthBackend.t T R X E);
  userProvider : option (AuthUserService.t T I E);
  currentUser : option T;
  userObservers : list UserObserver;
  activated : bool;
  gateObservers : list GateObserver;
  timers : list Timer;
  clock : N;
  nextSid : nat;
  events : list Event;
  calls : list PortCall
}.
End Types.

Arguments mkTimer {T} due target payload.
Arguments due {T} _.
Arguments target {T} _.
Arguments payload {T} _.
Arguments UserEmitted {T} sid user.
Arguments AuthenticatedEmitted {T} sid value.
Arguments UserRequiredEmitted {T} sid user.
Arguments UserRequiredFailed {T}.
Arguments CheckResolved {T} sid value.
Arguments CallDeleteUserSession {T R X I} user.
Arguments CallUserFromCredentials {T R X I} credentials.
Arguments CallCreateUserFromCredentials {T R X I} credentials extra.
Arguments CallFind {T R X I} userId.
Arguments mk {T R X I E}.
Arguments state {T R X I E} _.
Arguments backend {T R X I E} _.
Arguments userProvider {T R X I E} _.
Arguments currentUser {T R X I E} _.
Arguments userObservers {T R X I E} _.
Arguments activated {T R X I E} _.
Arguments gateObservers {T R X I E} _.
Arguments timers {T R X I E} _.
Arguments clock {T R X I E} _.
Arguments nextSid {T R X I E} _.
Arguments events {T R X I E} _.
Arguments calls {T R X I E} _.

Section Methods.
Context {T R X I E : Type}.

Abbreviation Service := (t T R X I E).

(** The service as the constructor leaves it. *)
Definition init (st : AuthState.t)
    (b : option (AuthBackend.t T R X E))
    (p : option (AuthUserService.t T I E)) : Service :=
  mk st b p None [] false [] [] 0%N 0 [] [].

(** *** Assignments to single fields *)

Definition set_state (v : AuthState.t) (s : Service) : Service :=
  mk v (backend s) (userProvider s) (currentUser s) (userObservers s)
     (activated s) (gateObservers s) (timers s) (clock s) (nextSid s)
     (events s) (calls s).

Definition set_currentUser (v : option T) (s : Service) : Service :=
  mk (state s) (backend s) (userProvider s) v (userObservers s)
     (activated s) (gateObservers s) (timers s) (clock s) (nextSid s)
     (events s) (calls s).

Definition set_userObservers (v : list UserObserver) (s : Service) : Service :=
  mk (state s) (backend s) (userProvider s) (currentUser s) v
     (activated s) (gateObservers s) (timers s) (clock s) (nextSid s)
     (events s) (calls s).

Definition set_activated (v : bool) (s : Service) : Service :=
  mk (state s) (backend s) (userProvider s) (currentUser s) (userObservers s)
     v (gateObservers s) (timers s) (clock s) (nextSid s)
     (events s) (calls s).

Definition set_gateObservers (v : list GateObserver) (s : Service) : Service :=
  mk (state s) (backend s) (userProvider s) (currentUser s) (userObservers s)
     (activated s) v (timers s) (clock s) (nextSid s)
     (events s) (calls s).

Definition set_timers (v : list (Timer T)) (s : Service) : Service :=
  mk (state s) (backend s) (userProvider s) (currentUser s) (userObservers s)
     (activated s) (gateObservers s) v (clock s) (nextSid s)
     (events s) (calls s).

Definition set_clock (v : N) (s : Service) : Service :=
  mk (state s) (backend s) (userProvider s) (currentUser s) (userObservers s)
     (activated s) (gateObservers s) (timers s) v (nextSid s)
     (events s) (calls s).

Definition set_nextSid (v : nat) (s : Service) : Service :=
  mk (state s) (backend s) (userProvider s) (currentUser s) (userObservers s)
     (activated s) (gateObservers s) (timers s) (clock s) v
     (events s) (calls s).

Definition set_events (v : list (Event T)) (s : Service) : Service :=
  mk (state s) (backend s) (userProvider s) (currentUser s) (userObservers s)
     (activated s) (gateObservers s) (timers s) (clock s) (nextSid s)
     v (calls s).

Definition set_calls (v : list (PortCall T R X I)) (s : Service) : Service :=
  mk (state s) (backend s) (userProvider s) (currentUser s) (userObservers s)
     (activated s) (gateObservers s) (timers s) (clock s) (nextSid s)
     (events s) v.

(** A subscriber's callback runs. *)
Definition emit (e : Event T) (s : Service) : Service :=
  set_events (events s ++ [e]) s.

(** A method of a port is invoked. *)
Definition invoke (c : PortCall T R X I) (s : Service) : Service :=
  set_calls (calls s ++ [c]) s.

(** A new subscription: its number. *)
Definition fresh (s : Service) : nat * Service :=
  (nextSid s, set_nextSid (S (nextSid s)) s).

(** *** The subjects and the streams derived from them *)

(** The projection of the second [mergeMap] of [userRequired$] and what
    it hands to the subscriber [sid]: for [null], a notification on
    [_userRequiredFails] and [Observable.of(user).delay(999999)], which
    is a timer; otherwise [Observable.of(user)], which the subscriber
    gets at once. *)
Definition requireUser (sid : nat) (user : option T) (s : Service) : Service :=
  match user with
  | None =>
      let s1 := emit UserRequiredFailed s in
      set_timers (timers s1 ++ [mkTimer (clock s1 + stallDelay)%N sid user]) s1
  | Some _ => emit (UserRequiredEmitted sid user) s
  end.

(** One observer of [currentUser] receives [user]. *)
Definition notifyUser (user : option T) (o : UserObserver) (s : Service)
  : UserObserver * Service :=
  match o with
  | UserStream sid => (o, emit (UserEmitted sid user) s)
  | AuthenticatedStream sid last =>
      let v := nonNull user in
      if decide (last = Some v) then (o, s)
      else (AuthenticatedStream sid (Some v), emit (AuthenticatedEmitted sid v) s)
  | UserRequiredInner sid => (o, requireUser sid user s)
  end.

Fixpoint notifyAll (user : option T) (obs : list UserObserver) (s : Service)
  : list UserObserver * Service :=
  match obs with
  | [] => ([], s)
  | o :: rest =>
      let '(o', s1) := notifyUser user o s in
      let '(rest', s2) := notifyAll user rest s1 in
      (o' :: rest', s2)
  end.

(** [this.currentUser.next(user)]: the value is stored, then the
    observers get it in the order of their subscriptions. *)
Definition currentUser_next (user : option T) (s : Service) : Service :=
  let s0 := set_currentUser user s in
  let '(obs, s1) := notifyAll user (userObservers s0) s0 in
  set_userObservers obs s1.

(** Subscribing to [currentUser], a [BehaviorSubject]: the observer gets
    the current value and is added to the observers. *)
Definition currentUser_subscribe (o : UserObserver) (s : Service) : Service :=
  let '(o', s1) := notifyUser (currentUser s) o s in
  set_userObservers (userObservers s1 ++ [o']) s1.

(** [setUser(user)] *)
Definition setUser (user : option T) (s : Service) : Service :=
  currentUser_next user s.

(** The [user] getter. *)
Definition user (s : Service) : option T := currentUser s.

(** The [authenticated] getter. *)
Definition authenticated (s : Service) : bool := nonNull (user s).

(** What follows a [whenActivated()] once it has emitted.  For
    [userRequired$] the first [mergeMap] subscribes to [currentUser]; for
    [check()] it subscribes to [authenticated$.first()], which gives the
    current value and ends. *)
Definition openGate (o : GateObserver) (s : Service) : Service :=
  match o with
  | GateUserRequired sid => currentUser_subscribe (UserRequiredInner sid) s
  | GateCheck sid => emit (CheckResolved sid (nonNull (currentUser s))) s
  end.

(** [this.activated.next(v)].  The observers of [activated] are
    [whenActivated()] chains,
    [distinctUntilChanged().filter((v) => v).first().map(() => {})], that
    have only seen [false]: on [true] each emits and, through [first],
    leaves the subject. *)
Definition activated_next (v : bool) (s : Service) : Service :=
  let s0 := set_activated v s in
  if v then foldl (fun acc o => openGate o acc) (set_gateObservers [] s0)
                  (gateObservers s0)
  else s0.

(** Subscribing to [whenActivated()] with what follows it: [activated] is
    a [BehaviorSubject], so when its value is already [true] the chain
    emits at once. *)
Definition whenActivated (o : GateObserver) (s : Service) : Service :=
  if activated s then openGate o s
  else set_gateObservers (gateObservers s ++ [o]) s.

(** [user$.subscribe(...)] *)
Definition subscribe_user (s : Service) : Service :=
  let '(sid, s1) := fresh s in
  currentUser_subscribe (UserStream sid) s1.

(** [authenticated$.subscribe(...)] *)
Definition subscribe_authenticated (s : Service) : Service :=
  let '(sid, s1) := fresh s in
  currentUser_subscribe (AuthenticatedStream sid None) s1.

(** [userRequired$.subscribe(...)].  The error callback of its [do] is
    not modelled: neither [activated] nor [currentUser] ever errors. *)
Definition subscribe_userRequired (s : Service) : Service :=
  let '(sid, s1) := fresh s in
  whenActivated (GateUserRequired sid) s1.

(** [check()] *)
Definition check (s : Service) : Service :=
  let '(sid, s1) := fresh s in
  whenActivated (GateCheck sid) s1.

(** Time passes: the timers that are due fire in order, each handing its
    value to its [userRequired$] subscriber. *)
Definition isDue (now : N) (tm : Timer T) : bool := (due tm <=? now)%N.

Definition fire (tm : Timer T) : Event T :=
  UserRequiredEmitted (target tm) (payload tm).

Definition advance (d : N) (s : Service) : Service :=
  let now := (clock s + d)%N in
  let fired := List.filter (isDue now) (timers s) in
  let kept := List.filter (fun tm => negb (isDue now tm)) (timers s) in
  set_events (events s ++ map fire fired) (set_timers kept (set_clock now s)).

(** A [userRequired$] subscription is open while one of its parts is:
    its [whenActivated()], its subscription to [currentUser] or one of
    its delayed values.  It completes when none is. *)
Definition waitsAtGate (sid : nat) (o : GateObserver) : bool :=
  match o with
  | GateUserRequired sid' => Nat.eqb sid' sid
  | GateCheck _ => false
  end.

Definition listensToUser (sid : nat) (o : UserObserver) : bool :=
  match o with
  | UserRequiredInner sid' => Nat.eqb sid' sid
  | _ => false
  end.


(** *** What the observers get, as lists

    The same notifications once more, as functions of the value and the
    observer alone; the lemmas on [notifyAll] and [activated_next] relate
    them to the state. *)

(** What the subscriber behind one observer of [currentUser] is told. *)
Definition told (user : option T) (o : UserObserver) : list (Event T) :=
  match o with
  | UserStream sid => [UserEmitted sid user]
  | AuthenticatedStream sid last =>
      if decide (last = Some (nonNull user)) then []
      else [AuthenticatedEmitted sid (nonNull user)]
  | UserRequiredInner sid =>
      match user with
      | None => [UserRequiredFailed]
      | Some _ => [UserRequiredEmitted sid user]
      end
  end.

(** The timer it starts. *)
Definition stalled (now : N) (user : option T) (o : UserObserver)
  : list (Timer T) :=
  match o, user with
  | UserRequiredInner sid, None => [mkTimer (now + stallDelay)%N sid user]
  | _, _ => []
  end.

(** The observer afterwards. *)
Definition renewed (user : option T) (o : UserObserver) : UserObserver :=
  match o with
  | AuthenticatedStream sid _ => AuthenticatedStream sid (Some (nonNull user))
  | _ => o
  end.

(** The same for an observer of [activated] when the gate opens. *)
Definition toldAtGate (user : option T) (o : GateObserver) : list (Event T) :=
  match o with
  | GateUserRequired sid => told user (UserRequiredInner sid)
  | GateCheck sid => [CheckResolved sid (nonNull user)]
  end.

Definition stalledAtGate (now : N) (user : option T) (o : GateObserver)
  : list (Timer T) :=
  match o with
  | GateUserRequired sid => stalled now user (UserRequiredInner sid)
  | GateCheck _ => []
  end.

Definition joins (o : GateObserver) : list UserObserver :=
  match o with
  | GateUserRequired sid => [UserRequiredInner sid]
  | GateCheck _ => []
  end.

(** The service after subscribers were told [evs] and the timers [tms]
    were started. *)
Definition observed (evs : list (Event T)) (tms : list (Timer T))
    (s : Service) : Service :=
  set_timers (timers s ++ tms) (set_events (events s ++ evs) s).

(** *** Observables returned by the methods

    An observable returned by a method does nothing until it is
    subscribed to.  Subscribing runs the callbacks of its [do] on the
    service while the values arrive and gives the subscriber the
    values and the ending of the source. *)
Definition Cold (A : Type) : Type := Service -> Service * Rx.Trace E A.

Definition subscribe {A} (o : Cold A) (s : Service) : Service * Rx.Trace E A :=
  o s.

(** A source without effect on the service, such as [Observable.of(null)]. *)
Definition cold {A} (src : Rx.Trace E A) : Cold A := fun s => (s, src).

(** [source.do(next, error)] *)
Definition tap {A} (next : A -> Service -> Service)
    (error : E -> Service -> Service) (src : Rx.Trace E A) : Cold A :=
  fun s =>
    let s1 := foldl (fun acc v => next v acc) s (Rx.emitted src) in
    (match Rx.ending src with
     | Rx.Errors e => error e s1
     | _ => s1
     end, src).

(** [source.do(next)] *)
Definition tapNext {A} (next : A -> Service -> Service) (src : Rx.Trace E A)
  : Cold A :=
  tap next (fun _ s => s) src.

(** *** The methods *)

(** Whether a user that is not null is truthy in JavaScript.  [T] is not
    constrained: an object always is truthy, the empty string, [0], [false]
    and [NaN] are not. *)
Variable truthy : T -> bool.

(** [!v] *)
Definition falsy (v : option T) : bool :=
  match v with
  | None => true
  | Some x => negb (truthy x)
  end.

(** [getUserOrFail()] *)
Definition getUserOrFail (s : Service) : Outcome (option T) :=
  if falsy (user s) then Threw MissingUserError
  else Returned (user s).

(** [deleteUserSession(user)] *)
Definition deleteUserSession (u : option T) (s : Service)
  : Service * Outcome (Rx.Trace E unit) :=
  match backend s with
  | None => (s, Threw MissingBackendError)
  | Some b =>
      (invoke (CallDeleteUserSession u) s,
       Returned (AuthBackend.deleteUserSession b u))
  end.

(** [userFromCredentials(credentials)] *)
Definition userFromCredentials (credentials : R) (s : Service)
  : Service * Outcome (Rx.Trace E (option T)) :=
  match backend s with
  | None => (s, Threw MissingBackendError)
  | Some b =>
      (invoke (CallUserFromCredentials credentials) s,
       Returned (AuthBackend.userFromCredentials b credentials))
  end.

(** [createUserFromCredentials(credentials, extra)]: the port is called
    with [credentials] alone, so its second parameter is [undefined]. *)
Definition createUserFromCredentials (credentials : R) (extra : option X)
    (s : Service) : Service * Outcome (Rx.Trace E (option T)) :=
  match backend s with
  | None => (s, Threw MissingBackendError)
  | Some b =>
      (invoke (CallCreateUserFromCredentials credentials None) s,
       Returned (AuthBackend.createUserFromCredentials b credentials None))
  end.

(** [parseUserObservable(observable)] *)
Definition parseUserObservable (observable : Rx.Trace E (option T))
    (s : Service) : Rx.Trace E (option T) :=
  match userProvider s with
  | Some p => Rx.mergeMap (AuthUserService.parseUser p) observable
  | None => observable
  end.

(** [logout()] *)
Definition logout (s : Service) : Service * Outcome (Cold unit) :=
  match deleteUserSession (user s) s with
  | (s1, Threw err) => (s1, Threw err)
  | (s1, Returned src) => (s1, Returned (tapNext (fun _ => setUser None) src))
  end.

(** [attempt(credentials)] *)
Definition attempt (credentials : R) (s : Service)
  : Service * Outcome (Cold (option T)) :=
  match userFromCredentials credentials s with
  | (s1, Threw err) => (s1, Threw err)
  | (s1, Returned src) =>
      (s1, Returned (tapNext (fun u => setUser u) (parseUserObservable src s1)))
  end.

(** [register(credentials, extra)] *)
Definition register (credentials : R) (extra : option X) (s : Service)
  : Service * Outcome (Cold (option T)) :=
  match createUserFromCredentials credentials extra s with
  | (s1, Threw err) => (s1, Threw err)
  | (s1, Returned src) =>
      (s1, Returned (tapNext (fun u => setUser u) (parseUserObservable src s1)))
  end.

(** [activate(userId, token)] *)
Definition activate (userId : option I) (token : option string) (s : Service)
  : Service * Outcome (Cold (option T)) :=
  let s1 := match token with
            | Some raw => set_state (AuthState.setToken raw (state s)) s
            | None => s
            end in
  match userId with
  | None =>
      let alreadyActivated := activated s1 in
      if alreadyActivated then (s1, Threw ReactivationError)
      else (activated_next true (setUser None s1), Returned (cold (Rx.of_ None)))
  | Some uid =>
      match userProvider s1 with
      | None => (s1, Threw MissingResolverError)
      | Some p =>
          (invoke (CallFind uid) s1,
           Returned (tap (fun u acc => activated_next true (setUser u acc))
                         (fun _ acc => activated_next true acc)
                         (AuthUserService.find p uid)))
      end
  end.

(** *** The states the service can be in

    One step is one thing that happens at once: a call of a public
    method that is not an observable, a callback of an observable that
    a method returned, a subscription, time passing.  A method that
    returns an observable is a sequence of such steps, however its
    callbacks interleave with the rest. *)
Inductive step : Service -> Service -> Prop :=
| step_setUser u s : step s (setUser u s)
| step_activated s : step s (activated_next true s)
| step_setToken raw s : step s (set_state (AuthState.setToken raw (state s)) s)
| step_observe ev s : step s (set_state (AuthInterceptor.observe ev (state s)) s)
| step_invoke c s : step s (invoke c s)
| step_subscribe_user s : step s (subscribe_user s)
| step_subscribe_authenticated s : step s (subscribe_authenticated s)
| step_subscribe_userRequired s : step s (subscribe_userRequired s)
| step_check s : step s (check s)
| step_advance d s : step s (advance d s).

Definition reachable (s : Service) : Prop :=
  exists st b p, rtc step (init st b p) s.

(** The value a subscriber of [authenticated$] was given last. *)
Fixpoint lastAuthenticated (sid : nat) (evs : list (Event T)) : option bool :=
  match evs with
  | [] => None
  | ev :: rest =>
      match lastAuthenticated sid rest with
      | Some v => Some v
      | None =>
          match ev with
          | AuthenticatedEmitted sid' v => if Nat.eqb sid' sid then Some v else None
          | _ => None
          end
      end
  end.

(** Every subscriber of [authenticated$] holds the value of the
    [authenticated] getter, and that is what it was told last. *)
Definition authenticatedInSync (s : Service) : Prop :=
  forall sid last,
    In (AuthenticatedStream sid last) (userObservers s) ->
    last = Some (authenticated s) /\
    lastAuthenticated sid (events s) = Some (authenticated s).

(** The [userRequired$] subscription [sid] is past the gate: it is
    subscribed to [currentUser]. *)
Definition listens (sid : nat) (s : Service) : Prop :=
  existsb (listensToUser sid) (userObservers s) = true.

(** It still waits in [whenActivated()]. *)
Definition waits (sid : nat) (s : Service) : Prop :=
  existsb (waitsAtGate sid) (gateObservers s) = true.


(** *** Notions for further properties *)

(** An event that comes from a [userRequired$] subscription: a value handed
    to its subscriber or a notification of the side channel. *)
Definition fromUserRequired (e : Event T) : bool :=
  match e with
  | UserRequiredEmitted _ _ | UserRequiredFailed => true
  | _ => false
  end.

(** Nothing has come of [userRequired$] so far: no subscription is past the
    gate, no value is delayed, no subscriber and no side channel was told
    anything. *)
Definition silent (s : Service) : Prop :=
  timers s = [] /\
  (forall sid, ~ listens sid s) /\
  Forall (fun e => fromUserRequired e = false) (events s).

(** How the user that a port hands over is normalised: as it is without a
    User Resolver, through its [parseUser] otherwise. *)
Definition normalised (s : Service) (u u' : option T) : Prop :=
  (userProvider s = None /\ u' = u) \/
  (exists p, userProvider s = Some p /\ AuthUserService.parseUser p u = Rx.of_ u').

(** The subscription an observer, an event or a timer belongs to. *)
Definition observerSid (o : UserObserver) : nat :=
  match o with
  | UserStream sid | AuthenticatedStream sid _ | UserRequiredInner sid => sid
  end.

Definition gateSid (g : GateObserver) : nat :=
  match g with
  | GateUserRequired sid | GateCheck sid => sid
  end.

Definition eventSid (e : Event T) : option nat :=
  match e with
  | UserEmitted sid _ | AuthenticatedEmitted sid _ | UserRequiredEmitted sid _
  | CheckResolved sid _ => Some sid
  | UserRequiredFailed => None
  end.

(** Every subscription has a number of its own, below the next one to be
    given out. *)
Definition wellNumbered (s : Service) : Prop :=
  NoDup (map observerSid (userObservers s)) /\
  NoDup (map gateSid (gateObservers s)) /\
  (forall n, In n (map observerSid (userObservers s)) ->
             ~ In n (map gateSid (gateObservers s))) /\
  (forall n, In n (map observerSid (userObservers s)) -> n < nextSid s) /\
  (forall n, In n (map gateSid (gateObservers s)) -> n < nextSid s) /\
  (forall e n, In e (events s) -> eventSid e = Some n -> n < nextSid s) /\
  (forall tm, In tm (timers s) -> target tm < nextSid s).

(** The values the subscriber [sid] of [user$] was handed, in order. *)
Definition userSeen (sid : nat) (evs : list (Event T)) : list (option T) :=
  flat_map (fun e => match e with
                     | UserEmitted sid' v => if Nat.eqb sid' sid then [v] else []
                     | _ => []
                     end) evs.

(** The values the subscriber [sid] of [authenticated$] was handed. *)
Definition authenticatedSeen (sid : nat) (evs : list (Event T)) : list bool :=
  flat_map (fun e => match e with
                     | AuthenticatedEmitted sid' v => if Nat.eqb sid' sid then [v] else []
                     | _ => []
                     end) evs.

(** No value is followed by the same value. *)
Fixpoint noRepeats (l : list bool) : bool :=
  match l with
  | x :: (y :: _) as rest => negb (Bool.eqb x y) && noRepeats rest
  | _ => true
  end.

(** Every subscriber of [authenticated$] has been handed a value, the last
    one is the one its [distinctUntilChanged] holds, and no two in a row
    were the same. *)
Definition authenticatedHistory (s : Service) : Prop :=
  forall sid last,
    In (AuthenticatedStream sid last) (userObservers s) ->
    exists pre v,
      authenticatedSeen sid (events s) = pre ++ [v] /\
      last = Some v /\
      noRepeats (pre ++ [v]) = true.

End Methods.

End AuthService.

(** ** A small application

    Users, credentials and extra data are strings, user identifiers are
    numbers and the ports fail with a message. *)

Module Scenario.

Abbreviation Service := (AuthService.t string string string nat string).

(** An exchanger that logs in whoever asks and that, like the one of the
    README, merges [extra] into what it creates. *)
Definition exchanger : AuthBackend.t string string string string :=
  AuthBackend.mk
    (fun _ => Rx.of_ tt)
    (fun credentials => Rx.of_ (Some credentials))
    (fun credentials extra =>
       Rx.of_ (Some match extra with
                    | Some x => credentials +:+ "/" +:+ x
                    | None => credentials
                    end)).

(** A resolver that knows nobody. *)
Definition resolver : AuthUserService.t string nat string :=
  AuthUserService.mk
    (fun _ => Rx.throwError "no such user")
    AuthUserService.defaultParseUser.

(** The service without its optional dependencies and with both. *)
Definition bare : Service := AuthService.init AuthState.init None None.

Definition wired : Service :=
  AuthService.init AuthState.init (Some exchanger) (Some resolver).

(** After [activate(null, null)]. *)
Definition activatedBare : Service := fst (AuthService.activate None None bare).

(** After a [userRequired$.subscribe(...)] on top of that: the subscriber
    is number 0 and has met the null user. *)
Definition stalledBare : Service := AuthService.subscribe_userRequired activatedBare.

(** A request with an [Authorization] header of its own. *)
Definition request : Http.HttpRequest :=
  Http.mkRequest "GET" "/me" (Http.set "Authorization" "Basic Zm9v" ∅) "".

End Scenario.

(** ** Further notions for the properties of the code *)

(** The token that is held has no space in it. *)
Definition tokenClean (st : AuthState.t) : Prop :=
  forall tok, AuthState.getToken st = Some tok -> Js.lacks Js.isSpace tok = true.

(** A string in a condition: only the empty string is falsy. *)
Definition truthyString (v : string) : bool :=
  match v with
  | EmptyString => false
  | String _ _ => true
  end.

(** No gate observer has been told the result of a [check()] yet. *)
Definition unresolved {T} (evs : list (AuthService.Event T)) : Prop :=
  forall sid v, ~ In (AuthService.CheckResolved sid v) evs.

Module Examples.

(** An error response with status 401 that carries a new token. *)
Definition expired : Http.HttpEvent :=
  Http.mkEvent 401 (Http.set "Authorization" "Bearer fresh42" ∅) true.

(** A resolver that knows everybody by name. *)
Definition directory : AuthUserService.t string nat string :=
  AuthUserService.mk
    (fun _ => Rx.of_ (Some "alice"))
    AuthUserService.defaultParseUser.

(** An exchanger whose API is down. *)
Definition offline : AuthBackend.t string string string string :=
  AuthBackend.mk
    (fun _ => Rx.throwError "offline")
    (fun _ => Rx.throwError "offline")
    (fun _ _ => Rx.throwError "offline").

Definition withDirectory : Scenario.Service :=
  AuthService.init AuthState.init (Some Scenario.exchanger) (Some directory).

Definition withOffline : Scenario.Service :=
  AuthService.init AuthState.init (Some offline) None.

(** Logged in as "alice" on the wired service. *)
Definition loggedIn : Scenario.Service :=
  AuthService.setUser (Some "alice") Scenario.wired.

End Examples.

(** * Properties *)

(** ** Strings and the token holder *)

Lemma splitOn_nonempty p s : Js.splitOn p s <> [].
Proof.
  destruct s as [|c rest]; simpl; [discriminate|].
  destruct (p c); [discriminate|].
  destruct (Js.splitOn p rest); discriminate.
Qed.

Lemma splitOn_lacks p s : Js.lacks p s = true -> Js.splitOn p s = [s].
Proof.
  induction s as [|c rest IH]; simpl; [reflexivity|].
  intros [Hc Hrest]%andb_prop.
  apply negb_true_iff in Hc. rewrite Hc, (IH Hrest). reflexivity.
Qed.

Lemma splitOn_single p s seg : Js.splitOn p s = [seg] -> Js.lacks p s = true.
Proof.
  revert seg. induction s as [|c rest IH]; intros seg; simpl; [reflexivity|].
  pose proof (splitOn_nonempty p rest) as Hne.
  destruct (p c).
  - destruct (Js.splitOn p rest); [congruence | discriminate].
  - destruct (Js.splitOn p rest) as [|seg' segs] eqn:Hrest; [congruence|].
    intros Heq. injection Heq as _ ->. simpl. eauto.
Qed.

(** The last segment has no separator in it and is what follows the last
    separator of the string, or the whole string when there is none. *)
Lemma splitOn_last p s :
  exists tok, last (Js.splitOn p s) = Some tok /\ Js.lacks p tok = true /\
    ((Js.lacks p s = true /\ s = tok) \/
     (exists pre c, p c = true /\ s = pre +:+ String c tok)).
Proof.
  induction s as [|c rest (tok & Hlast & Htok & Hshape)].
  - exists EmptyString. simpl. auto.
  - simpl. destruct (p c) eqn:Hc.
    + exists tok. split; [|split; [exact Htok|]].
      * destruct (Js.splitOn p rest); [discriminate | exact Hlast].
      * right. destruct Hshape as [[_ ->] | (pre & c' & Hc' & ->)].
        -- exists EmptyString, c. auto.
        -- exists (String c pre), c'. auto.
    + destruct Hshape as [[Hrest ->] | (pre & c' & Hc' & ->)].
      * exists (String c tok). rewrite (splitOn_lacks _ _ Hrest). simpl.
        rewrite Hc, Hrest. auto.
      * exists tok.
        destruct (Js.splitOn p (pre +:+ String c' tok)) as [|seg segs] eqn:Hsplit;
          [discriminate|].
        destruct segs as [|seg2 segs].
        -- apply splitOn_single in Hsplit. exfalso. clear -Hsplit Hc'.
           induction pre as [|a pre IH]; simpl in Hsplit.
           ++ rewrite Hc' in Hsplit. discriminate.
           ++ apply andb_prop in Hsplit as [_ Hsplit]. auto.
        -- split; [exact Hlast|]. split; [exact Htok|].
           right. exists (String c pre), c'. auto.
Qed.

Lemma isSpace_spec c : Js.isSpace c = true <-> c = " "%char.
Proof. unfold Js.isSpace. apply Ascii.eqb_eq. Qed.

Lemma isSpace_isWhitespace c : Js.isSpace c = true -> Js.isWhitespace c = true.
Proof. intros ->%isSpace_spec. reflexivity. Qed.

Lemma lacks_weaken (p q : ascii -> bool) s :
  (forall c, p c = true -> q c = true) ->
  Js.lacks q s = true -> Js.lacks p s = true.
Proof.
  intros Hpq. induction s as [|c rest IH]; simpl; [reflexivity|].
  intros [Hc Hrest]%andb_prop. rewrite (IH Hrest), andb_true_r.
  apply negb_true_iff in Hc. apply negb_true_iff.
  destruct (p c) eqn:Hp; [|reflexivity]. rewrite (Hpq _ Hp) in Hc. discriminate.
Qed.

Lemma setToken_last raw st :
  exists tok, last (Js.split_space raw) = Some tok /\
              AuthState.setToken raw st = AuthState.token_next tok st.
Proof.
  unfold AuthState.setToken, Js.pop, Js.split_space.
  pose proof (splitOn_nonempty Js.isSpace raw) as Hne.
  destruct (Js.splitOn Js.isSpace raw) as [|seg segs] eqn:Hsplit; [congruence|].
  destruct (last (seg :: segs)) as [tok|] eqn:Hlast.
  - exists tok. split; reflexivity.
  - apply last_None in Hlast. discriminate.
Qed.

(** The token that [setToken] publishes: the part of [raw] after its last
    space, or [raw] itself when it has no space. *)
Lemma setToken_publishes raw st :
  exists tok,
    AuthState.getToken (AuthState.setToken raw st) = Some tok /\
    AuthState.unauthorized (AuthState.setToken raw st) = AuthState.unauthorized st /\
    last (Js.split_space raw) = Some tok /\
    Js.lacks Js.isSpace tok = true /\
    (raw = tok \/ exists pre, raw = pre +:+ " " +:+ tok).
Proof.
  destruct (setToken_last raw st) as (tok & Hlast & ->).
  exists tok. split; [reflexivity|]. split; [reflexivity|]. split; [exact Hlast|].
  destruct (splitOn_last Js.isSpace raw) as (tok' & Hlast' & Hlacks & Hshape).
  unfold Js.split_space in Hlast. rewrite Hlast in Hlast'. injection Hlast' as <-.
  split; [exact Hlacks|].
  destruct Hshape as [[_ ->] | (pre & c & ->%isSpace_spec & ->)]; eauto.
Qed.

(** C3, as stated, fails: were the raw value split on whitespace, the token
    after [setToken] of "Bearer<TAB>abc123" would be "abc123"; the code keeps
    the whole value, since it only splits at spaces. *)
Lemma setToken_whitespace_counterexample :
  AuthState.getToken (AuthState.setToken AuthState.tabbed AuthState.init) = Some AuthState.tabbed /\
  AuthState.getToken (AuthState.setToken_on_whitespace AuthState.tabbed AuthState.init)
    = Some "abc123" /\
  AuthState.setToken AuthState.tabbed AuthState.init
    <> AuthState.setToken_on_whitespace AuthState.tabbed AuthState.init.
Proof. split; [reflexivity|]. split; [reflexivity|]. discriminate. Qed.

(** C3, amended: [setToken] splits its raw argument at the space character
    and stores the last segment, which is what follows the last space; a raw
    value with no space (so in particular one with no whitespace) is stored
    as it is.  After [setToken("Bearer abc123")] and after
    [setToken("abc123")], [getToken()] returns "abc123". *)
Theorem setToken_getToken raw st :
  (exists tok,
      AuthState.getToken (AuthState.setToken raw st) = Some tok /\
      last (Js.split_space raw) = Some tok /\
      Js.lacks Js.isSpace tok = true /\
      (raw = tok \/ exists pre, raw = pre +:+ " " +:+ tok)) /\
  (Js.lacks Js.isSpace raw = true ->
      AuthState.getToken (AuthState.setToken raw st) = Some raw) /\
  (Js.lacks Js.isWhitespace raw = true ->
      AuthState.getToken (AuthState.setToken raw st) = Some raw) /\
  AuthState.getToken (AuthState.setToken "Bearer abc123" st) = Some "abc123" /\
  AuthState.getToken (AuthState.setToken "abc123" st) = Some "abc123".
Proof.
  assert (Hspace : Js.lacks Js.isSpace raw = true ->
            AuthState.getToken (AuthState.setToken raw st) = Some raw).
  { intros Hlacks. unfold AuthState.setToken, Js.split_space.
    rewrite (splitOn_lacks _ _ Hlacks). reflexivity. }
  split; [|split; [exact Hspace|split]].
  - destruct (setToken_publishes raw st) as (tok & Hget & _ & Hrest). eauto.
  - intros Hlacks. apply Hspace.
    exact (lacks_weaken _ _ _ isSpace_isWhitespace Hlacks).
  - split; reflexivity.
Qed.

Lemma setToken_getToken_witness :
  AuthState.getToken (AuthState.setToken "abc123" AuthState.init) = Some "abc123".
Proof.
  apply (proj1 (proj2 (setToken_getToken "abc123" AuthState.init))).
  reflexivity.
Defined.

(** ** The request decorator *)

Lemma truthy_spec v :
  AuthInterceptor.truthy v = false <-> v = None \/ v = Some "".
Proof.
  destruct v as [[|c rest]|]; simpl; split; auto; try discriminate.
  intros [H | H]; discriminate.
Qed.

(** C8: with no token or the empty token the request is handed on as it
    is; with a token [tok] that is not empty the request handed on is the
    given one with the header [Authorization] set to the single value
    "Bearer tok", every other header and every other part unchanged. *)
Theorem decorate_spec st (req : Http.HttpRequest) :
  (AuthState.getToken st = None \/ AuthState.getToken st = Some "" ->
     AuthInterceptor.decorate st req = req) /\
  (forall tok, AuthState.getToken st = Some tok -> tok <> "" ->
     let req' := AuthInterceptor.decorate st req in
     req' = Http.clone_setHeader "Authorization" ("Bearer " +:+ tok) req /\
     Http.headers req' !! "authorization" = Some ["Bearer " +:+ tok] /\
     Http.get "Authorization" (Http.headers req') = Some ("Bearer " +:+ tok) /\
     (forall name, name <> "authorization" ->
        Http.headers req' !! name = Http.headers req !! name) /\
     Http.method req' = Http.method req /\
     Http.url req' = Http.url req /\
     Http.body req' = Http.body req).
Proof.
  split.
  - intros Hnone%truthy_spec. unfold AuthInterceptor.decorate.
    rewrite Hnone. reflexivity.
  - intros tok Htok Hne req'.
    assert (Hreq : req' = Http.clone_setHeader "Authorization" ("Bearer " +:+ tok) req).
    { subst req'. unfold AuthInterceptor.decorate. rewrite Htok.
      destruct tok; [congruence | reflexivity]. }
    rewrite Hreq. split; [reflexivity|].
    assert (Hlower : Http.toLowerCase "Authorization" = "authorization")
      by reflexivity.
    unfold Http.clone_setHeader, Http.get, Http.set.
    cbn [Http.headers Http.method Http.url Http.body].
    rewrite Hlower, lookup_insert_eq.
    split; [reflexivity|]. split; [reflexivity|].
    split; [|auto].
    intros name Hname. apply lookup_insert_ne. congruence.
Qed.

Lemma decorate_spec_witness :
  AuthInterceptor.decorate AuthState.init Scenario.request = Scenario.request /\
  Http.headers
    (AuthInterceptor.decorate (AuthState.setToken "Bearer abc123" AuthState.init)
       Scenario.request)
  !! "authorization" = Some ["Bearer abc123"].
Proof.
  split.
  - apply (proj1 (decorate_spec AuthState.init Scenario.request)).
    left. reflexivity.
  - apply (proj2 (decorate_spec (AuthState.setToken "Bearer abc123" AuthState.init)
                    Scenario.request) "abc123"); [reflexivity | discriminate].
Defined.

(** ** The service: how its parts change the state *)

Section AuthServiceFacts.
Context {T R X I E : Type}.
Import AuthService.

Abbreviation Service := (AuthService.t T R X I E).

Implicit Types (s : Service) (u : option T) (o : UserObserver)
  (g : GateObserver).

Lemma observed_nil s : observed [] [] s = s.
Proof. destruct s. unfold observed. simpl. rewrite !app_nil_r. reflexivity. Qed.

Lemma observed_observed evs tms evs' tms' s :
  observed evs' tms' (observed evs tms s) = observed (evs ++ evs') (tms ++ tms') s.
Proof. destruct s. unfold observed. simpl. rewrite !app_assoc. reflexivity. Qed.

Lemma notifyUser_spec u o s :
  notifyUser u o s = (renewed u o, observed (told u o) (stalled (clock s) u o) s).
Proof.
  destruct s, o as [sid|sid last|sid]; simpl.
  - unfold observed, emit. simpl. rewrite app_nil_r. reflexivity.
  - destruct (decide (last = Some (nonNull u))) as [->|Hne].
    + unfold observed. simpl. rewrite !app_nil_r. reflexivity.
    + unfold observed, emit. simpl. rewrite app_nil_r. reflexivity.
  - destruct u; unfold observed, emit; simpl; rewrite ?app_nil_r; reflexivity.
Qed.

Lemma notifyAll_spec u obs s :
  notifyAll u obs s
  = (map (renewed u) obs,
     observed (flat_map (told u) obs) (flat_map (stalled (clock s) u) obs) s).
Proof.
  revert s. induction obs as [|o rest IH]; intros s; simpl.
  - rewrite observed_nil. reflexivity.
  - rewrite notifyUser_spec, IH, observed_observed. reflexivity.
Qed.

Lemma setUser_spec u s :
  setUser u s
  = set_userObservers (map (renewed u) (userObservers s))
      (observed (flat_map (told u) (userObservers s))
                (flat_map (stalled (clock s) u) (userObservers s))
                (set_currentUser u s)).
Proof.
  unfold setUser, currentUser_next. rewrite notifyAll_spec. reflexivity.
Qed.

Lemma currentUser_subscribe_spec o s :
  currentUser_subscribe o s
  = set_userObservers (userObservers s ++ [renewed (currentUser s) o])
      (observed (told (currentUser s) o) (stalled (clock s) (currentUser s) o) s).
Proof. unfold currentUser_subscribe. rewrite notifyUser_spec. reflexivity. Qed.

Lemma openGate_spec g s :
  openGate g s
  = set_userObservers (userObservers s ++ joins g)
      (observed (toldAtGate (currentUser s) g)
                (stalledAtGate (clock s) (currentUser s) g) s).
Proof.
  destruct g as [sid|sid]; simpl.
  - rewrite currentUser_subscribe_spec. reflexivity.
  - destruct s. unfold observed, emit. simpl. rewrite !app_nil_r. reflexivity.
Qed.

Lemma openGates_spec gates s :
  foldl (fun acc g => openGate g acc) s gates
  = set_userObservers (userObservers s ++ flat_map joins gates)
      (observed (flat_map (toldAtGate (currentUser s)) gates)
                (flat_map (stalledAtGate (clock s) (currentUser s)) gates) s).
Proof.
  revert s. induction gates as [|g rest IH]; intros s; simpl.
  - destruct s. unfold observed. simpl. rewrite !app_nil_r. reflexivity.
  - rewrite IH, openGate_spec. destruct s. unfold observed. simpl.
    rewrite !app_assoc. reflexivity.
Qed.

Lemma activated_next_true_spec s :
  activated_next true s
  = set_userObservers (userObservers s ++ flat_map joins (gateObservers s))
      (observed (flat_map (toldAtGate (currentUser s)) (gateObservers s))
                (flat_map (stalledAtGate (clock s) (currentUser s)) (gateObservers s))
                (set_gateObservers [] (set_activated true s))).
Proof. unfold activated_next. rewrite openGates_spec. reflexivity. Qed.

(** *** The getters after the two subject updates *)

Lemma setUser_user u s : user (setUser u s) = u.
Proof. rewrite setUser_spec. reflexivity. Qed.

Lemma setUser_activated u s : activated (setUser u s) = activated s.
Proof. rewrite setUser_spec. reflexivity. Qed.

Lemma setUser_state u s : state (setUser u s) = state s.
Proof. rewrite setUser_spec. reflexivity. Qed.

Lemma activated_next_true_activated s : activated (activated_next true s) = true.
Proof. rewrite activated_next_true_spec. reflexivity. Qed.

Lemma activated_next_true_user s : user (activated_next true s) = user s.
Proof. rewrite activated_next_true_spec. reflexivity. Qed.

Lemma activated_next_true_state s : state (activated_next true s) = state s.
Proof. rewrite activated_next_true_spec. reflexivity. Qed.

(** *** Claims on single calls *)

(** C7, amended: [getUserOrFail()] tests [!this.user].  It returns the
    current user whenever that is truthy, and fails with [MissingUserError]
    exactly when it is falsy: null, or a falsy value that is not null.  For
    a user type whose values are all truthy, as objects are, it fails
    exactly when the user is null. *)
Theorem getUserOrFail_truthy (truthy : T -> bool) s :
  (forall x, user s = Some x -> truthy x = true ->
             getUserOrFail truthy s = Returned (Some x)) /\
  (getUserOrFail truthy s = Threw MissingUserError <->
   user s = None \/ exists x, user s = Some x /\ truthy x = false) /\
  ((forall x, truthy x = true) ->
   (forall x, user s = Some x -> getUserOrFail truthy s = Returned (Some x)) /\
   (getUserOrFail truthy s = Threw MissingUserError <-> user s = None)).
Proof.
  assert (Hok : forall x, user s = Some x -> truthy x = true ->
                          getUserOrFail truthy s = Returned (Some x)).
  { intros x Hx Htrue. unfold getUserOrFail, falsy. rewrite Hx, Htrue. reflexivity. }
  assert (Hfail : getUserOrFail truthy s = Threw MissingUserError <->
                  user s = None \/ exists x, user s = Some x /\ truthy x = false).
  { unfold getUserOrFail, falsy. destruct (user s) as [x|]; simpl.
    - destruct (truthy x) eqn:Hx; simpl; split.
      + discriminate.
      + intros [Hnone | (y & [= <-] & Hy)]; congruence.
      + intros _. right. exists x. auto.
      + reflexivity.
    - split; [auto | reflexivity]. }
  split; [exact Hok|]. split; [exact Hfail|].
  intros Hall. split; [intros x Hx; apply Hok; auto|].
  rewrite Hfail. split; [|auto].
  intros [Hnone | (x & _ & Hx)]; [exact Hnone|]. rewrite Hall in Hx. discriminate.
Qed.

(** C6: with no Credential Exchanger, [attempt(credentials)] and
    [logout()] throw [MissingBackendError] and leave the service, so in
    particular the current user, as it was. *)
Theorem no_backend_fails s (credentials : R) :
  backend s = None ->
  attempt credentials s = (s, Threw MissingBackendError) /\
  logout s = (s, Threw MissingBackendError) /\
  user (fst (attempt credentials s)) = user s /\
  user (fst (logout s)) = user s.
Proof.
  intros Hnone.
  assert (Hattempt : attempt credentials s = (s, Threw MissingBackendError)).
  { unfold attempt, userFromCredentials. rewrite Hnone. reflexivity. }
  assert (Hlogout : logout s = (s, Threw MissingBackendError)).
  { unfold logout, deleteUserSession. rewrite Hnone. reflexivity. }
  rewrite Hattempt, Hlogout. auto.
Qed.

(** C4: from a service that is not activated, [activate(null, null)]
    returns (an observable of [null] whose subscription changes nothing)
    and leaves the latch true and the user null; the same call once more
    throws [ReactivationError]. *)
Theorem activate_null_twice s :
  activated s = false ->
  exists s1 obs,
    activate None None s = (s1, Returned obs) /\
    subscribe obs s1 = (s1, Rx.of_ None) /\
    activated s1 = true /\
    user s1 = None /\
    activate None None s1 = (s1, Threw ReactivationError).
Proof.
  intros Hoff.
  exists (activated_next true (setUser None s)), (cold (Rx.of_ None)).
  assert (Hon : activated (activated_next true (setUser None s)) = true)
    by apply activated_next_true_activated.
  split; [unfold activate; rewrite Hoff; reflexivity|].
  split; [reflexivity|]. split; [exact Hon|].
  split; [rewrite activated_next_true_user; apply setUser_user|].
  unfold activate. rewrite Hon. reflexivity.
Qed.

(** C5: with a User Resolver whose [find] fails with [e], [activate(userId,
    token)] for a [userId] that is not null returns an observable; once it
    is subscribed to, the latch is true, the user is the one from before
    the call (null if it was null) and the subscriber gets the error [e]
    and no value. *)
Theorem activate_resolver_fails s (uid : I) token p (e : E) :
  userProvider s = Some p ->
  AuthUserService.find p uid = Rx.throwError e ->
  exists s1 obs s2 seen,
    activate (Some uid) token s = (s1, Returned obs) /\
    subscribe obs s1 = (s2, seen) /\
    activated s2 = true /\
    user s2 = user s /\
    (user s = None -> user s2 = None) /\
    Rx.emitted seen = [] /\
    Rx.ending seen = Rx.Errors e.
Proof.
  intros Hp Hfind.
  set (s0 := match token with
             | Some raw => set_state (AuthState.setToken raw (state s)) s
             | None => s
             end).
  assert (Hp0 : userProvider s0 = Some p) by (subst s0; destruct token; exact Hp).
  assert (Hu0 : user s0 = user s) by (subst s0; destruct token; reflexivity).
  exists (invoke (CallFind uid) s0).
  eexists. exists (activated_next true (invoke (CallFind uid) s0)), (Rx.throwError e).
  split.
  { unfold activate. fold s0. rewrite Hp0. reflexivity. }
  split.
  { unfold subscribe, tap. rewrite Hfind. reflexivity. }
  split; [apply activated_next_true_activated|].
  assert (Hu : user (activated_next true (invoke (CallFind uid) s0)) = user s).
  { rewrite activated_next_true_user. exact Hu0. }
  split; [exact Hu|]. split; [congruence|]. split; reflexivity.
Qed.

(** C10: [activate] hands a token that is not null to [setToken] before it
    checks anything.  When it then throws, [ReactivationError] for a null
    [userId] on an activated service or [MissingResolverError] for another
    [userId] without a User Resolver, the token holder already holds the
    parsed token: the part of the supplied value after its last space (the
    whole value when it has no space), which itself has no space.  The
    user, the latch and what subscribers were told are as before. *)
Theorem activate_throws_after_setToken s (userId : option I) raw :
  (userId = None /\ activated s = true) \/
  (userId <> None /\ userProvider s = None) ->
  exists s1 tok,
    activate userId (Some raw) s
    = (s1, Threw (match userId with
                  | None => ReactivationError
                  | Some _ => MissingResolverError
                  end)) /\
    s1 = set_state (AuthState.setToken raw (state s)) s /\
    AuthState.getToken (state s1) = Some tok /\
    Js.lacks Js.isSpace tok = true /\
    (raw = tok \/ exists pre, raw = pre +:+ " " +:+ tok) /\
    last (Js.split_space raw) = Some tok /\
    (Js.lacks Js.isSpace raw = true -> tok = raw) /\
    user s1 = user s /\ activated s1 = activated s /\ events s1 = events s.
Proof.
  intros Hfail.
  destruct (setToken_publishes raw (state s))
    as (tok & Hget & _ & Hlast & Hlacks & Hshape).
  exists (set_state (AuthState.setToken raw (state s)) s), tok.
  split.
  { unfold activate.
    destruct Hfail as [[-> Hon] | [Hsome Hnone]].
    - cbn [activated set_state]. rewrite Hon. reflexivity.
    - destruct userId as [uid|]; [|congruence].
      cbn [userProvider set_state]. rewrite Hnone. reflexivity. }
  split; [reflexivity|]. split; [exact Hget|]. split; [exact Hlacks|].
  split; [exact Hshape|]. split; [exact Hlast|]. split; [|auto].
  intros Hraw. unfold Js.split_space in Hlast.
  rewrite (splitOn_lacks _ _ Hraw) in Hlast. injection Hlast as <-. reflexivity.
Qed.

(** C2, what the code does: [register(credentials, extra)] invokes the
    exchanger's [createUserFromCredentials] with the credentials alone;
    whatever [extra] was, the port gets none. *)
Theorem register_omits_extra s b (credentials : R) (extra : option X) :
  backend s = Some b ->
  exists obs,
    register credentials extra s
    = (invoke (CallCreateUserFromCredentials credentials None) s, Returned obs) /\
    calls (fst (register credentials extra s))
    = calls s ++ [CallCreateUserFromCredentials credentials None] /\
    obs = tapNext (fun v => setUser v)
            (parseUserObservable
               (AuthBackend.createUserFromCredentials b credentials None) s).
Proof.
  intros Hb. unfold register, createUserFromCredentials. rewrite Hb.
  eexists. split; [reflexivity|]. split; reflexivity.
Qed.

(** *** The steps and the methods *)

Lemma tap_steps {A} (next : A -> Service -> Service)
    (error : E -> Service -> Service) (src : Rx.Trace E A) s :
  (forall v acc, rtc step acc (next v acc)) ->
  (forall e acc, rtc step acc (error e acc)) ->
  rtc step s (fst (subscribe (tap next error src) s)).
Proof.
  intros Hnext Herror. unfold subscribe, tap. simpl.
  assert (Hfold : rtc step s (foldl (fun acc v => next v acc) s (Rx.emitted src))).
  { generalize (Rx.emitted src) as vs. intros vs. revert s.
    induction vs as [|v vs IH]; intros s; simpl; [reflexivity|].
    etrans; [apply Hnext | apply IH]. }
  destruct (Rx.ending src); try exact Hfold.
  etrans; [exact Hfold | apply Herror].
Qed.

Lemma setUser_steps u s : rtc step s (setUser u s).
Proof. apply rtc_once, step_setUser. Qed.

(** Whatever a method does, at the call or while its observable delivers,
    is a sequence of steps. *)
Lemma activate_steps (userId : option I) token s :
  rtc step s (fst (activate userId token s)) /\
  forall obs s', snd (activate userId token s) = Returned obs ->
                 rtc step s' (fst (subscribe obs s')).
Proof.
  unfold activate.
  set (s0 := match token with
             | Some raw => set_state (AuthState.setToken raw (state s)) s
             | None => s
             end).
  assert (H0 : rtc step s s0).
  { subst s0. destruct token; [apply rtc_once, step_setToken | reflexivity]. }
  destruct userId as [uid|].
  - destruct (userProvider s0) as [p|]; simpl.
    + split; [etrans; [exact H0 | apply rtc_once, step_invoke]|].
      intros obs s' [= <-]. apply tap_steps.
      * intros v acc. etrans; [apply setUser_steps | apply rtc_once, step_activated].
      * intros e acc. apply rtc_once, step_activated.
    + split; [exact H0 | discriminate].
  - destruct (activated s0); simpl.
    + split; [exact H0 | discriminate].
    + split.
      * etrans; [exact H0|].
        etrans; [apply setUser_steps | apply rtc_once, step_activated].
      * intros obs s' [= <-]. reflexivity.
Qed.

Lemma attempt_steps (credentials : R) s :
  rtc step s (fst (attempt credentials s)) /\
  forall obs s', snd (attempt credentials s) = Returned obs ->
                 rtc step s' (fst (subscribe obs s')).
Proof.
  unfold attempt, userFromCredentials. destruct (backend s) as [b|]; simpl.
  - split; [apply rtc_once, step_invoke|].
    intros obs s' [= <-]. apply tap_steps.
    + intros v acc. apply setUser_steps.
    + reflexivity.
  - split; [reflexivity | discriminate].
Qed.

Lemma register_steps (credentials : R) (extra : option X) s :
  rtc step s (fst (register credentials extra s)) /\
  forall obs s', snd (register credentials extra s) = Returned obs ->
                 rtc step s' (fst (subscribe obs s')).
Proof.
  unfold register, createUserFromCredentials. destruct (backend s) as [b|]; simpl.
  - split; [apply rtc_once, step_invoke|].
    intros obs s' [= <-]. apply tap_steps.
    + intros v acc. apply setUser_steps.
    + reflexivity.
  - split; [reflexivity | discriminate].
Qed.

Lemma logout_steps s :
  rtc step s (fst (logout s)) /\
  forall obs s', snd (logout s) = Returned obs ->
                 rtc step s' (fst (subscribe obs s')).
Proof.
  unfold logout, deleteUserSession. destruct (backend s) as [b|]; simpl.
  - split; [apply rtc_once, step_invoke|].
    intros obs s' [= <-]. apply tap_steps.
    + intros v acc. apply setUser_steps.
    + reflexivity.
  - split; [reflexivity | discriminate].
Qed.

Lemma reachable_steps s s' : reachable s -> rtc step s s' -> reachable s'.
Proof.
  intros (st & b & p & Hs) Hs'. exists st, b, p. etrans; eassumption.
Qed.

(** The reachable states are closed under the methods that return an
    observable, at the call and when the observable is subscribed to. *)
Lemma methods_stay_reachable s :
  reachable s ->
  (forall (userId : option I) token,
      reachable (fst (activate userId token s)) /\
      forall obs s', snd (activate userId token s) = Returned obs ->
                     reachable s' -> reachable (fst (subscribe obs s'))) /\
  (forall credentials : R,
      reachable (fst (attempt credentials s)) /\
      forall obs s', snd (attempt credentials s) = Returned obs ->
                     reachable s' -> reachable (fst (subscribe obs s'))) /\
  (forall (credentials : R) (extra : option X),
      reachable (fst (register credentials extra s)) /\
      forall obs s', snd (register credentials extra s) = Returned obs ->
                     reachable s' -> reachable (fst (subscribe obs s'))) /\
  (reachable (fst (logout s)) /\
   forall obs s', snd (logout s) = Returned obs ->
                  reachable s' -> reachable (fst (subscribe obs s'))).
Proof.
  intros Hs. repeat split.
  - eapply reachable_steps; [exact Hs | apply activate_steps].
  - intros obs s' Hobs Hs'.
    eapply reachable_steps; [exact Hs' | eapply activate_steps, Hobs].
  - eapply reachable_steps; [exact Hs | apply attempt_steps].
  - intros obs s' Hobs Hs'.
    eapply reachable_steps; [exact Hs' | eapply attempt_steps, Hobs].
  - eapply reachable_steps; [exact Hs | apply register_steps].
  - intros obs s' Hobs Hs'.
    eapply reachable_steps; [exact Hs' | eapply register_steps, Hobs].
  - eapply reachable_steps; [exact Hs | apply logout_steps].
  - intros obs s' Hobs Hs'.
    eapply reachable_steps; [exact Hs' | eapply logout_steps, Hobs].
Qed.

(** *** [authenticated$] follows the user *)

Lemma lastAuthenticated_app sid (old news : list (Event T)) :
  lastAuthenticated sid (old ++ news)
  = match lastAuthenticated sid news with
    | Some v => Some v
    | None => lastAuthenticated sid old
    end.
Proof.
  induction old as [|ev old IH]; simpl.
  - destruct (lastAuthenticated sid news); reflexivity.
  - rewrite IH. destruct (lastAuthenticated sid news); reflexivity.
Qed.

Lemma lastAuthenticated_Some sid (evs : list (Event T)) v :
  lastAuthenticated sid evs = Some v -> In (AuthenticatedEmitted sid v) evs.
Proof.
  induction evs as [|ev evs IH]; simpl; [discriminate|].
  destruct (lastAuthenticated sid evs) as [w|].
  - intros [= ->]. right. apply IH. reflexivity.
  - destruct ev as [| sid' w | | |]; try discriminate.
    destruct (Nat.eqb sid' sid) eqn:Hsid; [|discriminate].
    apply Nat.eqb_eq in Hsid as ->. intros [= ->]. left. reflexivity.
Qed.

Lemma lastAuthenticated_None sid (evs : list (Event T)) :
  lastAuthenticated sid evs = None ->
  forall v, ~ In (AuthenticatedEmitted sid v) evs.
Proof.
  induction evs as [|ev evs IH]; simpl; [tauto|].
  destruct (lastAuthenticated sid evs) as [w|]; [discriminate|].
  intros Hev v [-> | Hin].
  - rewrite Nat.eqb_refl in Hev. discriminate.
  - exact (IH eq_refl v Hin).
Qed.

Lemma told_authenticated u obs sid v :
  In (AuthenticatedEmitted sid v) (flat_map (told u) obs) -> v = nonNull u.
Proof.
  intros (o & _ & Hin)%in_flat_map.
  destruct o as [sid'|sid' last|sid']; simpl in Hin.
  - destruct Hin as [|[]]; discriminate.
  - destruct (decide (last = Some (nonNull u))); [destruct Hin|].
    destruct Hin as [[= _ <-]|[]]. reflexivity.
  - destruct u; destruct Hin as [|[]]; discriminate.
Qed.

Lemma told_authenticated_change u obs sid last :
  In (AuthenticatedStream sid last) obs ->
  last <> Some (nonNull u) ->
  In (AuthenticatedEmitted sid (nonNull u)) (flat_map (told u) obs).
Proof.
  intros Hin Hne. apply in_flat_map. eexists. split; [exact Hin|].
  simpl. destruct (decide (last = Some (nonNull u))); [contradiction|].
  left. reflexivity.
Qed.

Lemma renewed_authenticated u obs sid last :
  In (AuthenticatedStream sid last) (map (renewed u) obs) ->
  last = Some (nonNull u) /\ exists last0, In (AuthenticatedStream sid last0) obs.
Proof.
  intros (o & Heq & Hin)%in_map_iff.
  destruct o as [sid'|sid' last0|sid']; simpl in Heq; try discriminate.
  injection Heq as -> <-. eauto.
Qed.

(** A step that leaves the user alone and tells no subscriber of
    [authenticated$] anything keeps them in sync. *)
Lemma inSync_quiet s s' news :
  user s' = user s ->
  events s' = events s ++ news ->
  (forall sid v, ~ In (AuthenticatedEmitted sid v) news) ->
  (forall sid last, In (AuthenticatedStream sid last) (userObservers s') ->
                    In (AuthenticatedStream sid last) (userObservers s)) ->
  authenticatedInSync s -> authenticatedInSync s'.
Proof.
  intros Huser Hevents Hquiet Hobs Hsync sid last Hin.
  destruct (Hsync sid last (Hobs _ _ Hin)) as [Hlast Htold].
  unfold authenticated in *. rewrite Huser, Hevents, lastAuthenticated_app.
  split; [exact Hlast|].
  destruct (lastAuthenticated sid news) as [v|] eqn:Hnews; [|exact Htold].
  apply lastAuthenticated_Some in Hnews. destruct (Hquiet _ _ Hnews).
Qed.

Lemma toldAtGate_quiet u gates sid v :
  ~ In (AuthenticatedEmitted sid v) (flat_map (toldAtGate u) gates).
Proof.
  intros (g & _ & Hin)%in_flat_map.
  destruct g, u; simpl in Hin; destruct Hin as [|[]]; discriminate.
Qed.

Lemma joins_no_authenticated gates sid last :
  ~ In (AuthenticatedStream sid last) (flat_map joins gates).
Proof.
  intros (g & _ & Hin)%in_flat_map.
  destruct g; simpl in Hin; [destruct Hin as [|[]]; discriminate | destruct Hin].
Qed.

Lemma setUser_inSync u s : authenticatedInSync s -> authenticatedInSync (setUser u s).
Proof.
  intros Hsync sid last Hin. rewrite setUser_spec in Hin |- *.
  cbn [userObservers set_userObservers] in Hin.
  apply renewed_authenticated in Hin as [-> [last0 Hin0]].
  destruct (Hsync _ _ Hin0) as [Hlast0 Htold0].
  change (authenticated
            (set_userObservers (map (renewed u) (userObservers s))
               (observed (flat_map (told u) (userObservers s))
                  (flat_map (stalled (clock s) u) (userObservers s))
                  (set_currentUser u s)))) with (nonNull u).
  split; [reflexivity|].
  change (events
            (set_userObservers (map (renewed u) (userObservers s))
               (observed (flat_map (told u) (userObservers s))
                  (flat_map (stalled (clock s) u) (userObservers s))
                  (set_currentUser u s))))
    with (events s ++ flat_map (told u) (userObservers s)).
  rewrite lastAuthenticated_app.
  destruct (lastAuthenticated sid (flat_map (told u) (userObservers s)))
    as [v|] eqn:Hnews.
  - apply lastAuthenticated_Some, told_authenticated in Hnews as ->. reflexivity.
  - destruct (decide (last0 = Some (nonNull u))) as [Hsame | Hchange].
    + rewrite Htold0. congruence.
    + destruct (lastAuthenticated_None _ _ Hnews (nonNull u)).
      exact (told_authenticated_change _ _ _ _ Hin0 Hchange).
Qed.

Lemma subscribe_authenticated_spec s :
  subscribe_authenticated s
  = set_userObservers
      (userObservers s ++ [AuthenticatedStream (nextSid s) (Some (authenticated s))])
      (observed [AuthenticatedEmitted (nextSid s) (authenticated s)] []
         (set_nextSid (S (nextSid s)) s)).
Proof.
  unfold subscribe_authenticated, fresh. rewrite currentUser_subscribe_spec.
  reflexivity.
Qed.

Lemma step_inSync s s' : step s s' -> authenticatedInSync s -> authenticatedInSync s'.
Proof.
  intros Hstep Hsync. destruct Hstep as [u s | s | raw s | ev s | c s | s | s | s | s | d s].
  - apply setUser_inSync, Hsync.
  - rewrite activated_next_true_spec.
    eapply inSync_quiet; [| | | |exact Hsync]; [reflexivity|reflexivity|..].
    + apply toldAtGate_quiet.
    + cbn [userObservers set_userObservers]. intros sid last [Hin|Hin]%in_app_iff;
        [exact Hin | destruct (joins_no_authenticated _ _ _ Hin)].
  - apply (inSync_quiet s _ []); auto. cbn. rewrite app_nil_r. reflexivity.
  - apply (inSync_quiet s _ []); auto. cbn. rewrite app_nil_r. reflexivity.
  - apply (inSync_quiet s _ []); auto. cbn. rewrite app_nil_r. reflexivity.
  - unfold subscribe_user, fresh. rewrite currentUser_subscribe_spec.
    eapply inSync_quiet; [| | | |exact Hsync]; [reflexivity|reflexivity|..].
    + intros sid v [|[]]; discriminate.
    + cbn [userObservers set_userObservers observed set_timers set_events set_nextSid].
      intros sid last [Hin|[|[]]]%in_app_iff; [exact Hin | discriminate].
  - rewrite subscribe_authenticated_spec. intros sid last Hin.
    cbn [userObservers set_userObservers observed set_timers set_events set_nextSid] in Hin.
    change (authenticated (set_userObservers _ _)) with (authenticated s).
    change (events (set_userObservers _ _))
      with (events s ++ [AuthenticatedEmitted (nextSid s) (authenticated s)]).
    rewrite lastAuthenticated_app. simpl.
    apply in_app_iff in Hin as [Hin | [[= <- <-] | []]].
    + destruct (Hsync _ _ Hin) as [-> ->]. split; [reflexivity|].
      destruct (Nat.eqb (nextSid s) sid); reflexivity.
    + rewrite Nat.eqb_refl. split; reflexivity.
  - unfold subscribe_userRequired, fresh, whenActivated.
    cbn [activated set_nextSid].
    destruct (activated s).
    + rewrite openGate_spec.
      eapply inSync_quiet; [| | | |exact Hsync]; [reflexivity|reflexivity|..].
      * intros sid v Hin. apply (toldAtGate_quiet (currentUser s) [GateUserRequired (nextSid s)] sid v).
        simpl. rewrite app_nil_r. exact Hin.
      * cbn. intros sid last [Hin|[|[]]]%in_app_iff; [exact Hin | discriminate].
    + apply (inSync_quiet s _ []); auto. cbn. rewrite app_nil_r. reflexivity.
  - unfold check, fresh, whenActivated.
    cbn [activated set_nextSid].
    destruct (activated s).
    + rewrite openGate_spec.
      eapply inSync_quiet; [| | | |exact Hsync]; [reflexivity|reflexivity|..].
      * intros sid v [|[]]; discriminate.
      * cbn. rewrite app_nil_r. auto.
    + apply (inSync_quiet s _ []); auto. cbn. rewrite app_nil_r. reflexivity.
  - eapply inSync_quiet; [| | | |exact Hsync]; [reflexivity|reflexivity|..].
    + intros sid v (tm & Heq & _)%in_map_iff. discriminate.
    + auto.
Qed.

Lemma reachable_inSync s : reachable s -> authenticatedInSync s.
Proof.
  intros (st & b & p & Hs). revert s Hs. apply rtc_ind_r.
  - intros sid last [].
  - intros s s' _ Hstep Hsync. eapply step_inSync; eassumption.
Qed.



(** *** [userRequired$] *)

Lemma listensToUser_spec sid o :
  listensToUser sid o = true <-> o = UserRequiredInner sid.
Proof.
  destruct o as [sid'|sid' last|sid']; simpl; split; try discriminate.
  - intros ->%Nat.eqb_eq. reflexivity.
  - intros [= ->]. apply Nat.eqb_refl.
Qed.

Lemma listens_spec sid s : listens sid s <-> In (UserRequiredInner sid) (userObservers s).
Proof.
  unfold listens. rewrite existsb_exists. split.
  - intros (o & Hin & ->%listensToUser_spec). exact Hin.
  - intros Hin. eexists. split; [exact Hin|]. apply listensToUser_spec. reflexivity.
Qed.

Lemma waits_spec sid s : waits sid s <-> In (GateUserRequired sid) (gateObservers s).
Proof.
  unfold waits. rewrite existsb_exists. split.
  - intros (g & Hin & Hg). destruct g as [sid'|sid']; simpl in Hg; [|discriminate].
    apply Nat.eqb_eq in Hg as ->. exact Hin.
  - intros Hin. eexists. split; [exact Hin|]. simpl. apply Nat.eqb_refl.
Qed.


















End AuthServiceFacts.

(** ** The claims on the small application *)

Lemma activate_null_twice_witness :
  AuthService.activated Scenario.bare = false /\
  exists s1 obs,
    AuthService.activate None None Scenario.bare = (s1, Returned obs) /\
    AuthService.subscribe obs s1 = (s1, Rx.of_ None) /\
    AuthService.activated s1 = true /\
    AuthService.user s1 = None /\
    AuthService.activate None None s1 = (s1, Threw ReactivationError).
Proof.
  split; [reflexivity | apply (activate_null_twice Scenario.bare); reflexivity].
Defined.

Lemma activate_resolver_fails_witness :
  exists s1 obs s2 seen,
    AuthService.activate (Some 7) (Some "Bearer abc123") Scenario.wired
    = (s1, Returned obs) /\
    AuthService.subscribe obs s1 = (s2, seen) /\
    AuthService.activated s2 = true /\
    AuthService.user s2 = AuthService.user Scenario.wired /\
    (AuthService.user Scenario.wired = None -> AuthService.user s2 = None) /\
    Rx.emitted seen = [] /\
    Rx.ending seen = Rx.Errors "no such user".
Proof.
  apply (activate_resolver_fails Scenario.wired 7 (Some "Bearer abc123")
           Scenario.resolver "no such user"); reflexivity.
Defined.

Lemma no_backend_fails_witness :
  AuthService.attempt "bob" Scenario.bare = (Scenario.bare, Threw MissingBackendError) /\
  AuthService.logout Scenario.bare = (Scenario.bare, Threw MissingBackendError) /\
  AuthService.user (fst (AuthService.attempt "bob" Scenario.bare))
  = AuthService.user Scenario.bare /\
  AuthService.user (fst (AuthService.logout Scenario.bare))
  = AuthService.user Scenario.bare.
Proof. apply (no_backend_fails Scenario.bare "bob"). reflexivity. Defined.

Lemma getUserOrFail_truthy_witness :
  AuthService.getUserOrFail truthyString
    (AuthService.setUser (Some "alice") Scenario.bare)
  = Returned (Some "alice").
Proof.
  apply (proj1 (getUserOrFail_truthy truthyString
                  (AuthService.setUser (Some "alice") Scenario.bare)) "alice");
    reflexivity.
Defined.

(** C7, as stated, fails: with the empty string as the user, which is not
    null, [getUserOrFail()] throws. *)
Lemma getUserOrFail_falsy_user :
  AuthService.user (AuthService.setUser (Some "") Scenario.bare) = Some "" /\
  AuthService.authenticated (AuthService.setUser (Some "") Scenario.bare) = true /\
  AuthService.getUserOrFail truthyString (AuthService.setUser (Some "") Scenario.bare)
  = Threw MissingUserError.
Proof. split; [reflexivity|]. split; reflexivity. Qed.

Lemma activate_throws_after_setToken_witness :
  exists s1,
    AuthService.activate (@None nat) (Some "Bearer abc123") Scenario.activatedBare
    = (s1, Threw ReactivationError) /\
    AuthState.getToken (AuthService.state s1) = Some "abc123" /\
    AuthState.getToken (AuthService.state Scenario.activatedBare) = None.
Proof.
  destruct (activate_throws_after_setToken Scenario.activatedBare None
              "Bearer abc123" (or_introl (conj eq_refl eq_refl)))
    as (s1 & tok & Hcall & Hs1 & _).
  exists s1. split; [exact Hcall|]. rewrite Hs1. split; reflexivity.
Defined.

Lemma register_omits_extra_witness :
  exists obs,
    AuthService.register "bob" (Some "admin") Scenario.wired
    = (AuthService.invoke (AuthService.CallCreateUserFromCredentials "bob" None)
         Scenario.wired, Returned obs) /\
    AuthService.calls (fst (AuthService.register "bob" (Some "admin") Scenario.wired))
    = AuthService.calls Scenario.wired
      ++ [AuthService.CallCreateUserFromCredentials "bob" None] /\
    obs = AuthService.tapNext (fun v => AuthService.setUser v)
            (AuthService.parseUserObservable
               (AuthBackend.createUserFromCredentials Scenario.exchanger "bob" None)
               Scenario.wired).
Proof.
  apply (register_omits_extra Scenario.wired Scenario.exchanger "bob" (Some "admin")).
  reflexivity.
Defined.

(** The same on the application: the exchanger would have created
    "bob/admin" from the extra data; after [register("bob", "admin")] the
    user is "bob". *)
Lemma register_extra_lost :
  AuthBackend.createUserFromCredentials Scenario.exchanger "bob" (Some "admin")
  = Rx.of_ (Some "bob/admin") /\
  match AuthService.register "bob" (Some "admin") Scenario.wired with
  | (s1, Returned obs) =>
      AuthService.calls s1 = [AuthService.CallCreateUserFromCredentials "bob" None] /\
      AuthService.user (fst (AuthService.subscribe obs s1)) = Some "bob"
  | (_, Threw _) => False
  end.
Proof. split; [reflexivity|]. split; reflexivity. Qed.




(** What the delay comes to: once 999999 ms have passed, the null that was
    held back is handed to the subscriber. *)
Lemma userRequired_null_after_delay :
  AuthService.events (AuthService.advance 999998 Scenario.stalledBare)
  = [AuthService.UserRequiredFailed] /\
  AuthService.events (AuthService.advance 999999 Scenario.stalledBare)
  = [AuthService.UserRequiredFailed; AuthService.UserRequiredEmitted 0 None].
Proof. split; reflexivity. Qed.

(** * Further properties of the code *)

(** ** The token holder and the interceptor *)

Lemma setToken_unauthorized raw st :
  AuthState.unauthorized (AuthState.setToken raw st) = AuthState.unauthorized st.
Proof. destruct (setToken_last raw st) as (tok & _ & ->). reflexivity. Qed.

Lemma handleResponseHeader_unauthorized ev st :
  AuthState.unauthorized (AuthInterceptor.handleResponseHeader ev st)
  = AuthState.unauthorized st.
Proof.
  unfold AuthInterceptor.handleResponseHeader.
  destruct (AuthInterceptor.truthy _); [|reflexivity].
  destruct (Http.get _ _); [apply setToken_unauthorized | reflexivity].
Qed.

(** An event seen by the interceptor notifies [unauthorized$] once when it
    is an error response with status 401, and not at all otherwise,
    whatever headers it carries. *)
Theorem observe_unauthorized ev st :
  AuthState.unauthorized (AuthInterceptor.observe ev st)
  = AuthState.unauthorized st
    + (if Http.isError ev && (Http.status ev =? 401)%nat then 1 else 0).
Proof.
  unfold AuthInterceptor.observe.
  destruct (Http.isError ev && (Http.status ev =? 401)%nat); simpl;
    rewrite handleResponseHeader_unauthorized; lia.
Qed.

Lemma split_bearer tok :
  Js.lacks Js.isSpace tok = true ->
  Js.split_space ("Bearer " +:+ tok) = ["Bearer"; tok].
Proof.
  intros Hlacks. unfold Js.split_space.
  change ("Bearer " +:+ tok)
    with (String "B" (String "e" (String "a" (String "r" (String "e"
           (String "r" (String " " tok))))))).
  simpl. rewrite (splitOn_lacks _ _ Hlacks). reflexivity.
Qed.

Lemma setToken_bearer tok st :
  Js.lacks Js.isSpace tok = true ->
  AuthState.setToken ("Bearer " +:+ tok) st = AuthState.token_next tok st.
Proof.
  intros Hlacks. unfold AuthState.setToken. rewrite (split_bearer _ Hlacks).
  reflexivity.
Qed.

Lemma observe_token ev st :
  AuthState.token (AuthInterceptor.observe ev st)
  = AuthState.token (AuthInterceptor.handleResponseHeader ev st).
Proof.
  unfold AuthInterceptor.observe.
  destruct (Http.isError ev && (Http.status ev =? 401)%nat); reflexivity.
Qed.

(** The token exchange of the interceptor is a round trip: when a response
    or an error response carries the header [Authorization: Bearer tok],
    with [tok] not empty and without a space, [tok] becomes the token and the
    next request that is decorated carries the very same header. *)
Theorem token_round_trip ev st (req : Http.HttpRequest) tok :
  tok <> "" ->
  Js.lacks Js.isSpace tok = true ->
  Http.get "Authorization" (Http.responseHeaders ev) = Some ("Bearer " +:+ tok) ->
  AuthState.getToken (AuthInterceptor.observe ev st) = Some tok /\
  Http.get "Authorization"
    (Http.headers (AuthInterceptor.decorate (AuthInterceptor.observe ev st) req))
  = Some ("Bearer " +:+ tok).
Proof.
  intros Hne Hlacks Hheader.
  assert (Htok : AuthState.getToken (AuthInterceptor.observe ev st) = Some tok).
  { unfold AuthState.getToken. rewrite observe_token.
    unfold AuthInterceptor.handleResponseHeader. rewrite Hheader.
    change (AuthInterceptor.truthy (Some ("Bearer " +:+ tok))) with true.
    cbv iota. rewrite (setToken_bearer _ _ Hlacks). reflexivity. }
  split; [exact Htok|].
  unfold AuthInterceptor.decorate. rewrite Htok.
  destruct tok as [|c rest]; [congruence|].
  cbn [AuthInterceptor.truthy].
  unfold Http.clone_setHeader, Http.get, Http.set. cbn [Http.headers].
  rewrite lookup_insert_eq. reflexivity.
Qed.

Lemma token_round_trip_witness :
  AuthState.getToken (AuthInterceptor.observe Examples.expired AuthState.init)
  = Some "fresh42" /\
  Http.get "Authorization"
    (Http.headers
       (AuthInterceptor.decorate
          (AuthInterceptor.observe Examples.expired AuthState.init) Scenario.request))
  = Some "Bearer fresh42".
Proof.
  apply (token_round_trip Examples.expired AuthState.init Scenario.request "fresh42");
    [discriminate | reflexivity | reflexivity].
Defined.

(** A token read with [getToken()] and handed back to [setToken], as a host
    does that saves the session and restores it, is the token that is held
    afterwards, on whatever token holder it is set. *)
Theorem setToken_getToken_round_trip raw st st0 tok :
  AuthState.getToken (AuthState.setToken raw st) = Some tok ->
  AuthState.getToken (AuthState.setToken tok st0) = Some tok /\
  AuthState.getToken (AuthState.setToken tok (AuthState.setToken raw st)) = Some tok.
Proof.
  intros Hget.
  destruct (setToken_publishes raw st) as (tok' & Hget' & _ & _ & Hlacks & _).
  rewrite Hget in Hget'. injection Hget' as <-.
  assert (Hset : forall st1, AuthState.getToken (AuthState.setToken tok st1) = Some tok).
  { intros st1. unfold AuthState.setToken, Js.split_space.
    rewrite (splitOn_lacks _ _ Hlacks). reflexivity. }
  split; apply Hset.
Qed.

Lemma setToken_getToken_round_trip_witness :
  AuthState.getToken (AuthState.setToken "abc123" AuthState.init) = Some "abc123" /\
  AuthState.getToken
    (AuthState.setToken "abc123" (AuthState.setToken "Bearer abc123" AuthState.init))
  = Some "abc123".
Proof.
  apply (setToken_getToken_round_trip "Bearer abc123" AuthState.init AuthState.init
           "abc123").
  reflexivity.
Defined.

Lemma split_trailing_space pre :
  exists seg segs, Js.split_space (pre +:+ " ") = seg :: segs ++ [""].
Proof.
  unfold Js.split_space. induction pre as [|c pre (seg & segs & IH)].
  - exists "", []. reflexivity.
  - change (String c pre +:+ " ") with (String c (pre +:+ " ")).
    simpl. rewrite IH. destruct (Js.isSpace c).
    + exists "", (seg :: segs). reflexivity.
    + exists (String c seg), segs. reflexivity.
Qed.

(** The empty string and every raw value that ends in a space, such as
    "Bearer ", leave the empty token behind; with it the requests go out
    without an [Authorization] header of the interceptor's. *)
Theorem setToken_trailing_space raw st (req : Http.HttpRequest) :
  raw = "" \/ (exists pre, raw = pre +:+ " ") ->
  AuthState.getToken (AuthState.setToken raw st) = Some "" /\
  AuthInterceptor.decorate (AuthState.setToken raw st) req = req.
Proof.
  intros Hraw.
  assert (Hget : AuthState.getToken (AuthState.setToken raw st) = Some "").
  { destruct Hraw as [-> | [pre ->]]; [reflexivity|].
    destruct (split_trailing_space pre) as (seg & segs & Hsplit).
    unfold AuthState.setToken, Js.pop. rewrite Hsplit.
    rewrite app_comm_cons, last_snoc. reflexivity. }
  split; [exact Hget|].
  unfold AuthInterceptor.decorate. rewrite Hget. reflexivity.
Qed.

Lemma setToken_trailing_space_witness :
  AuthState.getToken (AuthState.setToken "Bearer " AuthState.init) = Some "" /\
  AuthInterceptor.decorate (AuthState.setToken "Bearer " AuthState.init)
    Scenario.request = Scenario.request.
Proof.
  apply (setToken_trailing_space "Bearer " AuthState.init Scenario.request).
  right. exists "Bearer". reflexivity.
Defined.

(** Decorating a request twice gives what decorating it once gives: the
    header is set, not added. *)
Theorem decorate_idempotent st (req : Http.HttpRequest) :
  AuthInterceptor.decorate st (AuthInterceptor.decorate st req)
  = AuthInterceptor.decorate st req.
Proof.
  unfold AuthInterceptor.decorate.
  destruct (AuthInterceptor.truthy (AuthState.getToken st)); [|reflexivity].
  destruct (AuthState.getToken st) as [tok|]; [|reflexivity].
  unfold Http.clone_setHeader, Http.set. cbn [Http.method Http.url Http.headers Http.body].
  rewrite insert_insert_eq. reflexivity.
Qed.

(** Whatever the interceptor sees and whatever is handed to [setToken], the
    token that is held never has a space in it. *)
Theorem token_stays_clean st :
  tokenClean st ->
  (forall raw, tokenClean (AuthState.setToken raw st)) /\
  (forall ev, tokenClean (AuthInterceptor.observe ev st)) /\
  tokenClean (AuthState.triggerUnauthorized st).
Proof.
  intros Hclean.
  assert (Hset : forall raw st', tokenClean (AuthState.setToken raw st')).
  { intros raw st' tok Hget.
    destruct (setToken_publishes raw st') as (tok' & Hget' & _ & _ & Hlacks & _).
    rewrite Hget in Hget'. injection Hget' as <-. exact Hlacks. }
  split; [intros raw; apply Hset|]. split; [|exact Hclean].
  intros ev tok. unfold AuthState.getToken. rewrite observe_token.
  unfold AuthInterceptor.handleResponseHeader.
  destruct (AuthInterceptor.truthy _); [|apply Hclean].
  destruct (Http.get _ _); [apply Hset | apply Hclean].
Qed.

Lemma token_stays_clean_witness :
  tokenClean (AuthInterceptor.observe Examples.expired AuthState.init).
Proof.
  apply (proj1 (proj2 (token_stays_clean AuthState.init
                         ltac:(intros tok; discriminate)))).
Defined.

(** ** The service *)

Section AuthServiceMore.
Context {T R X I E : Type}.
Import AuthService.

Abbreviation Service := (AuthService.t T R X I E).

Implicit Types (s : Service) (u : option T) (o : UserObserver)
  (g : GateObserver).

(** *** The subscriptions, unfolded *)

Lemma subscribe_user_spec s :
  subscribe_user s
  = set_userObservers (userObservers s ++ [UserStream (nextSid s)])
      (observed [UserEmitted (nextSid s) (currentUser s)] []
         (set_nextSid (S (nextSid s)) s)).
Proof. unfold subscribe_user, fresh. rewrite currentUser_subscribe_spec. reflexivity. Qed.

Lemma subscribe_userRequired_spec s :
  subscribe_userRequired s
  = if activated s
    then set_userObservers (userObservers s ++ [UserRequiredInner (nextSid s)])
           (observed (told (currentUser s) (UserRequiredInner (nextSid s)))
                     (stalled (clock s) (currentUser s) (UserRequiredInner (nextSid s)))
                     (set_nextSid (S (nextSid s)) s))
    else set_gateObservers (gateObservers s ++ [GateUserRequired (nextSid s)])
           (set_nextSid (S (nextSid s)) s).
Proof.
  unfold subscribe_userRequired, fresh, whenActivated. cbn [activated set_nextSid].
  destruct (activated s); [rewrite openGate_spec|]; reflexivity.
Qed.

Lemma check_spec s :
  check s
  = if activated s
    then observed [CheckResolved (nextSid s) (nonNull (currentUser s))] []
           (set_nextSid (S (nextSid s)) s)
    else set_gateObservers (gateObservers s ++ [GateCheck (nextSid s)])
           (set_nextSid (S (nextSid s)) s).
Proof.
  unfold check, fresh, whenActivated. cbn [activated set_nextSid].
  destruct (activated s); [|reflexivity].
  destruct s. unfold openGate, emit, observed. simpl. rewrite app_nil_r. reflexivity.
Qed.

Lemma subscribe_tapNext_of {A} (next : A -> Service -> Service) (v : A) s :
  subscribe (tapNext next (Rx.of_ v)) s = (next v s, Rx.of_ v).
Proof. reflexivity. Qed.

Lemma subscribe_tapNext_throw {A} (next : A -> Service -> Service) (e : E) s :
  subscribe (tapNext next (Rx.throwError e)) s = (s, Rx.throwError e).
Proof. reflexivity. Qed.

Lemma parseUserObservable_of s u u' :
  normalised s u u' -> parseUserObservable (Rx.of_ u) s = Rx.of_ u'.
Proof.
  unfold parseUserObservable.
  intros [[-> ->] | (p & -> & Hparse)]; [reflexivity|].
  unfold Rx.mergeMap. simpl. rewrite Hparse. reflexivity.
Qed.

Lemma parseUserObservable_throw s (e : E) :
  parseUserObservable (Rx.throwError e) s = Rx.throwError e.
Proof. unfold parseUserObservable. destruct (userProvider s); reflexivity. Qed.

(** *** Logging in, registering, logging out *)

(** When the exchanger answers [attempt(credentials)] with a user, that
    user, normalised, becomes the current user and is what the caller gets;
    the exchanger was asked once, the token and the latch are as before.
    The service need not be activated for this. *)
Theorem attempt_success s b (credentials : R) u u' :
  backend s = Some b ->
  AuthBackend.userFromCredentials b credentials = Rx.of_ u ->
  normalised s u u' ->
  exists s1 obs s2,
    attempt credentials s = (s1, Returned obs) /\
    subscribe obs s1 = (s2, Rx.of_ u') /\
    user s2 = u' /\
    authenticated s2 = nonNull u' /\
    calls s2 = calls s ++ [CallUserFromCredentials credentials] /\
    state s2 = state s /\
    activated s2 = activated s.
Proof.
  intros Hb Hport Hnorm.
  exists (invoke (CallUserFromCredentials credentials) s). eexists.
  exists (setUser u' (invoke (CallUserFromCredentials credentials) s)).
  split.
  { unfold attempt, userFromCredentials. rewrite Hb, Hport. reflexivity. }
  split.
  { rewrite (parseUserObservable_of _ u u') by exact Hnorm.
    apply subscribe_tapNext_of. }
  unfold authenticated. rewrite setUser_user, setUser_spec. auto.
Qed.

(** The same for [register(credentials, extra)], with what the exchanger
    creates from the credentials. *)
Theorem register_success s b (credentials : R) (extra : option X) u u' :
  backend s = Some b ->
  AuthBackend.createUserFromCredentials b credentials None = Rx.of_ u ->
  normalised s u u' ->
  exists s1 obs s2,
    register credentials extra s = (s1, Returned obs) /\
    subscribe obs s1 = (s2, Rx.of_ u') /\
    user s2 = u' /\
    authenticated s2 = nonNull u' /\
    state s2 = state s /\
    activated s2 = activated s.
Proof.
  intros Hb Hport Hnorm.
  exists (invoke (CallCreateUserFromCredentials credentials None) s). eexists.
  exists (setUser u' (invoke (CallCreateUserFromCredentials credentials None) s)).
  split.
  { unfold register, createUserFromCredentials. rewrite Hb, Hport. reflexivity. }
  split.
  { rewrite (parseUserObservable_of _ u u') by exact Hnorm.
    apply subscribe_tapNext_of. }
  unfold authenticated. rewrite setUser_user, setUser_spec. auto.
Qed.

(** When the exchanger answers [logout()] for the current user, the user
    becomes null.  The token is not touched: it stays in the token holder. *)
Theorem logout_success s b :
  backend s = Some b ->
  AuthBackend.deleteUserSession b (user s) = Rx.of_ tt ->
  exists s1 obs s2,
    logout s = (s1, Returned obs) /\
    subscribe obs s1 = (s2, Rx.of_ tt) /\
    user s2 = None /\
    authenticated s2 = false /\
    calls s2 = calls s ++ [CallDeleteUserSession (user s)] /\
    state s2 = state s.
Proof.
  intros Hb Hport.
  exists (invoke (CallDeleteUserSession (user s)) s). eexists.
  exists (setUser None (invoke (CallDeleteUserSession (user s)) s)).
  split.
  { unfold logout, deleteUserSession. rewrite Hb, Hport. reflexivity. }
  split; [reflexivity|].
  unfold authenticated. rewrite setUser_user, setUser_spec. auto.
Qed.

(** An error of the exchanger reaches the caller of [attempt], [register]
    and [logout] as it is, and the current user stays who it was: a failed
    login does not log out, a failed logout does not either. *)
Theorem exchanger_error_passes s b (e : E) :
  backend s = Some b ->
  (forall credentials : R,
      AuthBackend.userFromCredentials b credentials = Rx.throwError e ->
      exists s1 obs s2,
        attempt credentials s = (s1, Returned obs) /\
        subscribe obs s1 = (s2, Rx.throwError e) /\ user s2 = user s) /\
  (forall (credentials : R) (extra : option X),
      AuthBackend.createUserFromCredentials b credentials None = Rx.throwError e ->
      exists s1 obs s2,
        register credentials extra s = (s1, Returned obs) /\
        subscribe obs s1 = (s2, Rx.throwError e) /\ user s2 = user s) /\
  (AuthBackend.deleteUserSession b (user s) = Rx.throwError e ->
      exists s1 obs s2,
        logout s = (s1, Returned obs) /\
        subscribe obs s1 = (s2, Rx.throwError e) /\ user s2 = user s).
Proof.
  intros Hb. split; [|split].
  - intros credentials Hport. eexists. eexists. eexists. split.
    { unfold attempt, userFromCredentials. rewrite Hb, Hport. reflexivity. }
    rewrite parseUserObservable_throw. split; [apply subscribe_tapNext_throw|].
    reflexivity.
  - intros credentials extra Hport. eexists. eexists. eexists. split.
    { unfold register, createUserFromCredentials. rewrite Hb, Hport. reflexivity. }
    rewrite parseUserObservable_throw. split; [apply subscribe_tapNext_throw|].
    reflexivity.
  - intros Hport. eexists. eexists. eexists. split.
    { unfold logout, deleteUserSession. rewrite Hb, Hport. reflexivity. }
    split; [apply subscribe_tapNext_throw | reflexivity].
Qed.

(** With the [parseUser] of the abstract class, or without a User Resolver,
    [parseUserObservable] hands the observable on as it is. *)
Theorem parseUserObservable_default (src : Rx.Trace E (option T)) s :
  (userProvider s = None \/
   exists p, userProvider s = Some p /\
             forall v, AuthUserService.parseUser p v = AuthUserService.defaultParseUser v) ->
  parseUserObservable src s = src.
Proof.
  unfold parseUserObservable. intros [-> | (p & -> & Hparse)]; [reflexivity|].
  destruct src as [vs fin]. unfold Rx.mergeMap. cbn [Rx.emitted Rx.ending].
  induction vs as [|v vs IH]; simpl.
  - destruct fin; reflexivity.
  - rewrite Hparse. simpl. rewrite IH. reflexivity.
Qed.

(** *** Activation *)

(** When the User Resolver finds the user, [activate(userId, token)] leaves,
    once its observable is subscribed to, the latch true, the user found as
    the current user and the parsed token in the token holder; the caller
    gets the user.  This holds on an activated service as well: only the
    null [userId] is refused there. *)
Theorem activate_resolver_succeeds s (uid : I) token p u :
  userProvider s = Some p ->
  AuthUserService.find p uid = Rx.of_ u ->
  exists s1 obs s2,
    activate (Some uid) token s = (s1, Returned obs) /\
    subscribe obs s1 = (s2, Rx.of_ u) /\
    activated s2 = true /\
    user s2 = u /\
    state s2 = match token with
               | Some raw => AuthState.setToken raw (state s)
               | None => state s
               end /\
    calls s2 = calls s ++ [CallFind uid].
Proof.
  intros Hp Hfind.
  set (s0 := match token with
             | Some raw => set_state (AuthState.setToken raw (state s)) s
             | None => s
             end).
  assert (Hp0 : userProvider s0 = Some p) by (subst s0; destruct token; exact Hp).
  exists (invoke (CallFind uid) s0). eexists.
  exists (activated_next true (setUser u (invoke (CallFind uid) s0))).
  split.
  { unfold activate. fold s0. rewrite Hp0, Hfind. reflexivity. }
  split; [reflexivity|].
  split; [apply activated_next_true_activated|].
  split; [rewrite activated_next_true_user; apply setUser_user|].
  rewrite activated_next_true_spec, setUser_spec.
  subst s0. destruct token; auto.
Qed.

(** *** The latch *)

Ltac step_cases H :=
  destruct H as [u s | s | raw s | ev s | c s | s | s | s | s | d s];
  rewrite ?setUser_spec, ?activated_next_true_spec, ?subscribe_user_spec,
    ?subscribe_authenticated_spec, ?subscribe_userRequired_spec, ?check_spec.

Lemma step_latch s s' : step s s' -> activated s = true -> activated s' = true.
Proof.
  intros Hstep Hon. step_cases Hstep; try rewrite Hon; try exact Hon; reflexivity.
Qed.

Lemma step_gate_empty s s' :
  step s s' ->
  (activated s = true -> gateObservers s = []) ->
  activated s' = true -> gateObservers s' = [].
Proof.
  intros Hstep Hgate. step_cases Hstep; intros Hon'; try (apply Hgate, Hon').
  all: try reflexivity.
  all: revert Hon'; destruct (activated s) eqn:Hact; cbn; rewrite ?Hact;
    [intros _; auto | discriminate].
Qed.

Lemma reachable_gate_empty s :
  reachable s -> activated s = true -> gateObservers s = [].
Proof.
  intros (st & b & p & Hs). revert s Hs.
  apply (rtc_ind_r (fun s => activated s = true -> gateObservers s = [])).
  - discriminate.
  - intros s s' _ Hstep IH. exact (step_gate_empty _ _ Hstep IH).
Qed.

(** Activation happens once and for good: on an activated service nobody
    waits at the gate, and whatever happens next the latch stays true,
    nobody comes to wait, and [activate(null, token)] is refused. *)
Theorem latch_stays s :
  reachable s -> activated s = true ->
  gateObservers s = [] /\
  forall s', rtc step s s' ->
    activated s' = true /\
    gateObservers s' = [] /\
    forall token, snd (activate (@None I) token s') = Threw ReactivationError.
Proof.
  intros Hs Hon. split; [exact (reachable_gate_empty s Hs Hon)|].
  intros s' Hsteps.
  assert (Hon' : activated s' = true).
  { clear Hs. induction Hsteps; [exact Hon | eauto using step_latch]. }
  split; [exact Hon'|].
  split; [exact (reachable_gate_empty s' (reachable_steps _ _ Hs Hsteps) Hon')|].
  intros token. unfold activate.
  destruct token; cbn [activated set_state]; rewrite Hon'; reflexivity.
Qed.

(** *** [userRequired$] and [check()] before and at the activation *)

Lemma not_listening_told u obs :
  (forall sid, ~ In (UserRequiredInner sid) obs) ->
  Forall (fun e : Event T => fromUserRequired e = false) (flat_map (told u) obs) /\
  forall now, flat_map (stalled now u) obs = [].
Proof.
  induction obs as [|o obs IH]; intros Hnone; [split; [constructor | reflexivity]|].
  destruct IH as [IHtold IHstalled].
  { intros sid Hin. apply (Hnone sid). right. exact Hin. }
  split.
  - simpl. apply Forall_app. split; [|exact IHtold].
    destruct o as [sid|sid last|sid]; simpl.
    + repeat constructor.
    + destruct (decide (last = Some (nonNull u))); repeat constructor.
    + destruct (Hnone sid). left. reflexivity.
  - intros now. simpl. rewrite IHstalled.
    destruct o as [sid|sid last|sid]; try reflexivity.
    destruct (Hnone sid). left. reflexivity.
Qed.

Lemma renewed_not_listening u obs :
  (forall sid, ~ In (UserRequiredInner sid) obs) ->
  forall sid, ~ In (UserRequiredInner sid) (map (renewed u) obs).
Proof.
  intros Hnone sid (o & Heq & Hin)%in_map_iff.
  destruct o; simpl in Heq; try discriminate.
  injection Heq as ->. exact (Hnone _ Hin).
Qed.

Lemma silent_listening s :
  silent s -> forall sid, ~ In (UserRequiredInner sid) (userObservers s).
Proof. intros (_ & Hnone & _) sid Hin. apply (Hnone sid), listens_spec, Hin. Qed.

Lemma step_silent s s' :
  step s s' -> activated s' = false -> silent s -> silent s'.
Proof.
  intros Hstep Hoff Hsilent.
  pose proof (silent_listening s Hsilent) as Hnone.
  destruct Hsilent as (Htimers & _ & Hevents).
  unfold silent. setoid_rewrite listens_spec. revert Hoff.
  step_cases Hstep.
  - intros _. destruct (not_listening_told u _ Hnone) as [Htold Hstalled].
    cbn. rewrite Htimers, Hstalled. split; [reflexivity|].
    split; [apply renewed_not_listening, Hnone|].
    apply Forall_app. split; assumption.
  - cbn. discriminate.
  - auto.
  - auto.
  - auto.
  - intros _. cbn. rewrite Htimers. split; [reflexivity|]. split.
    + intros sid [Hin | [|[]]]%in_app_iff; [exact (Hnone _ Hin) | discriminate].
    + apply Forall_app. split; [exact Hevents | repeat constructor].
  - intros _. cbn. rewrite Htimers. split; [reflexivity|]. split.
    + intros sid [Hin | [|[]]]%in_app_iff; [exact (Hnone _ Hin) | discriminate].
    + apply Forall_app. split; [exact Hevents | repeat constructor].
  - destruct (activated s) eqn:Hact; cbn; rewrite ?Hact; [discriminate|]. auto.
  - destruct (activated s) eqn:Hact; cbn; rewrite ?Hact; [discriminate|]. auto.
  - intros _. unfold advance. cbn. rewrite Htimers. simpl. rewrite app_nil_r. auto.
Qed.

Lemma step_waits sid s s' :
  step s s' -> activated s' = false -> waits sid s -> waits sid s'.
Proof.
  rewrite !waits_spec. intros Hstep Hoff Hwait. revert Hoff.
  step_cases Hstep; try (intros _; exact Hwait).
  - cbn. discriminate.
  - destruct (activated s) eqn:Hact; cbn; rewrite ?Hact; [discriminate|].
    intros _. apply in_app_iff. left. exact Hwait.
  - destruct (activated s) eqn:Hact; cbn; rewrite ?Hact; [discriminate|].
    intros _. apply in_app_iff. left. exact Hwait.
Qed.

Lemma step_latch_off s s' : step s s' -> activated s' = false -> activated s = false.
Proof.
  intros Hstep Hoff. destruct (activated s) eqn:Hon; [|reflexivity].
  rewrite (step_latch _ _ Hstep Hon) in Hoff. discriminate.
Qed.

Lemma reachable_silent s : reachable s -> activated s = false -> silent s.
Proof.
  intros (st & b & p & Hs). revert s Hs.
  apply (rtc_ind_r (fun s => activated s = false -> silent s)).
  - intros _. split; [reflexivity|]. split; [|constructor].
    intros sid. unfold listens. simpl. discriminate.
  - intros s s' _ Hstep IH Hoff.
    exact (step_silent _ _ Hstep Hoff (IH (step_latch_off _ _ Hstep Hoff))).
Qed.

Lemma stalledAtGate_some now (x : T) gates :
  flat_map (stalledAtGate now (Some x)) gates = [].
Proof.
  induction gates as [|g gates IH]; [reflexivity|].
  simpl. rewrite IH. destruct g; reflexivity.
Qed.

(** Until the service is activated nothing comes of [userRequired$]: a
    subscription made before the activation waits at the gate, and as long
    as the latch is false no subscriber is handed a value, the side channel
    is not notified and no value is delayed.  When the gate then opens on a
    user that is not null, the subscriber is handed that user, and the side
    channel stays quiet. *)
Theorem userRequired_waits_for_activation s s' :
  reachable s -> activated s = false ->
  rtc step (subscribe_userRequired s) s' -> activated s' = false ->
  events (subscribe_userRequired s) = events s /\
  silent s' /\
  waits (nextSid s) s' /\
  forall x, user s' = Some x ->
    exists news,
      events (activated_next true s') = events s' ++ news /\
      In (UserRequiredEmitted (nextSid s) (Some x)) news /\
      ~ In UserRequiredFailed news /\
      timers (activated_next true s') = [] /\
      listens (nextSid s) (activated_next true s').
Proof.
  intros Hs Hoff Hsteps Hoff'.
  assert (Hsub : subscribe_userRequired s
                 = set_gateObservers (gateObservers s ++ [GateUserRequired (nextSid s)])
                     (set_nextSid (S (nextSid s)) s)).
  { rewrite subscribe_userRequired_spec, Hoff. reflexivity. }
  split; [rewrite Hsub; reflexivity|].
  assert (Hsilent : silent s').
  { apply reachable_silent; [|exact Hoff'].
    eapply reachable_steps; [exact Hs|].
    etrans; [apply rtc_once, step_subscribe_userRequired | exact Hsteps]. }
  split; [exact Hsilent|].
  assert (Hwait : waits (nextSid s) s').
  { revert Hoff'. clear Hsilent. revert s' Hsteps. apply (rtc_ind_r
      (fun s' => activated s' = false -> waits (nextSid s) s')).
    - intros _. apply waits_spec. rewrite Hsub. apply in_app_iff. right. left.
      reflexivity.
    - intros s1 s2 _ Hstep IH Hoff2.
      exact (step_waits _ _ _ Hstep Hoff2 (IH (step_latch_off _ _ Hstep Hoff2))). }
  split; [exact Hwait|].
  intros x Hx. unfold user in Hx. rewrite activated_next_true_spec, Hx.
  apply waits_spec in Hwait. destruct Hsilent as (Htimers & _ & _).
  eexists. split; [reflexivity|]. split; [|split; [|split]].
  - apply in_flat_map. eexists. split; [exact Hwait|]. left. reflexivity.
  - intros (g & _ & Hin)%in_flat_map.
    destruct g; simpl in Hin; destruct Hin as [|[]]; discriminate.
  - cbn. rewrite Htimers, stalledAtGate_some. reflexivity.
  - apply listens_spec. cbn. apply in_app_iff. right.
    apply in_flat_map. eexists. split; [exact Hwait|]. left. reflexivity.
Qed.

(** After the activation a new [userRequired$] subscriber is handed the
    current user at once when it is not null. *)
Theorem userRequired_delivers_at_once s x :
  activated s = true -> user s = Some x ->
  events (subscribe_userRequired s)
    = events s ++ [UserRequiredEmitted (nextSid s) (Some x)] /\
  timers (subscribe_userRequired s) = timers s /\
  listens (nextSid s) (subscribe_userRequired s).
Proof.
  unfold user. intros Hon Hx. rewrite subscribe_userRequired_spec, Hon, Hx.
  split; [reflexivity|]. split; [cbn; apply app_nil_r|].
  apply listens_spec. cbn. apply in_app_iff. right. left. reflexivity.
Qed.

Lemma told_no_check u o sid v : ~ In (@CheckResolved T sid v) (told u o).
Proof.
  destruct o as [sid'|sid' last|sid']; simpl.
  - intros [|[]]; discriminate.
  - destruct (decide (last = Some (nonNull u))); [intros []|].
    intros [|[]]; discriminate.
  - destruct u; intros [|[]]; discriminate.
Qed.

Lemma step_unresolved s s' :
  step s s' -> activated s' = false -> unresolved (events s) -> unresolved (events s').
Proof.
  intros Hstep Hoff Hnone. revert Hoff. unfold unresolved in *.
  step_cases Hstep; try (intros _; exact Hnone).
  - intros _ sid v. cbn. intros [Hin | (o & _ & Hin)%in_flat_map]%in_app_iff;
      [exact (Hnone _ _ Hin) | exact (told_no_check _ _ _ _ Hin)].
  - cbn. discriminate.
  - intros _ sid v. cbn. intros [Hin | [|[]]]%in_app_iff;
      [exact (Hnone _ _ Hin) | discriminate].
  - intros _ sid v. cbn. intros [Hin | [|[]]]%in_app_iff;
      [exact (Hnone _ _ Hin) | discriminate].
  - destruct (activated s) eqn:Hact; cbn; rewrite ?Hact; [discriminate|].
    intros _. exact Hnone.
  - destruct (activated s) eqn:Hact; cbn; rewrite ?Hact; [discriminate|].
    intros _. exact Hnone.
  - intros _ sid v. unfold advance. cbn.
    intros [Hin | (tm & Heq & _)%in_map_iff]%in_app_iff;
      [exact (Hnone _ _ Hin) | discriminate].
Qed.

Lemma step_gate_keeps g s s' :
  step s s' -> activated s' = false ->
  In g (gateObservers s) -> In g (gateObservers s').
Proof.
  intros Hstep Hoff Hwait. revert Hoff.
  step_cases Hstep; try (intros _; exact Hwait).
  - cbn. discriminate.
  - destruct (activated s) eqn:Hact; cbn; rewrite ?Hact; [discriminate|].
    intros _. apply in_app_iff. left. exact Hwait.
  - destruct (activated s) eqn:Hact; cbn; rewrite ?Hact; [discriminate|].
    intros _. apply in_app_iff. left. exact Hwait.
Qed.

Lemma reachable_unresolved s :
  reachable s -> activated s = false -> unresolved (events s).
Proof.
  intros (st & b & p & Hs). revert s Hs.
  apply (rtc_ind_r (fun s => activated s = false -> unresolved (events s))).
  - intros _ sid v [].
  - intros s s' _ Hstep IH Hoff.
    exact (step_unresolved _ _ Hstep Hoff (IH (step_latch_off _ _ Hstep Hoff))).
Qed.

(** [check()] resolves with the value of [authenticated] at the moment the
    gate is open.  On an activated service that is at once.  On a service
    that is not activated the check waits: whatever happens after the call,
    as long as the latch is false no [check()] has resolved and this one is
    still at the gate; when the gate opens it resolves with the value of
    [authenticated] at that moment, and an [activate(null, token)] that
    opens it makes it resolve with false, and only false, whoever the user
    was before. *)
Theorem check_resolves s :
  reachable s ->
  (activated s = true ->
     events (check s) = events s ++ [CheckResolved (nextSid s) (authenticated s)]) /\
  (activated s = false ->
     forall s', rtc step (check s) s' -> activated s' = false ->
       unresolved (events s') /\
       In (GateCheck (nextSid s)) (gateObservers s') /\
       (exists news,
           events (activated_next true s') = events s' ++ news /\
           In (CheckResolved (nextSid s) (authenticated s')) news) /\
       forall token, exists news,
         events (fst (activate (@None I) token s')) = events s' ++ news /\
         In (CheckResolved (nextSid s) false) news /\
         forall v, In (CheckResolved (nextSid s) v) news -> v = false).
Proof.
  intros Hs. split; intros Hlatch.
  { rewrite check_spec, Hlatch. reflexivity. }
  intros s' Hsteps Hoff.
  assert (Hcheck : check s
                   = set_gateObservers (gateObservers s ++ [GateCheck (nextSid s)])
                       (set_nextSid (S (nextSid s)) s)).
  { rewrite check_spec, Hlatch. reflexivity. }
  assert (Hs' : reachable s').
  { eapply reachable_steps; [exact Hs|].
    etrans; [apply rtc_once, step_check | exact Hsteps]. }
  split; [exact (reachable_unresolved s' Hs' Hoff)|].
  assert (Hwait : In (GateCheck (nextSid s)) (gateObservers s')).
  { revert Hoff. revert s' Hsteps Hs'. apply (rtc_ind_r
      (fun s' => reachable s' -> activated s' = false ->
                 In (GateCheck (nextSid s)) (gateObservers s'))).
    - intros _ _. rewrite Hcheck. apply in_app_iff. right. left. reflexivity.
    - intros s1 s2 Hsteps1 Hstep IH _ Hoff2.
      apply (step_gate_keeps _ _ _ Hstep Hoff2). apply IH.
      + eapply reachable_steps; [exact Hs|].
        etrans; [apply rtc_once, step_check | exact Hsteps1].
      + exact (step_latch_off _ _ Hstep Hoff2). }
  split; [exact Hwait|]. split.
  { rewrite activated_next_true_spec. eexists. split; [reflexivity|].
    apply in_flat_map. exists (GateCheck (nextSid s)). split; [exact Hwait|].
    left. reflexivity. }
  intros token. unfold activate.
  set (s2 := match token with
             | Some raw => set_state (AuthState.setToken raw (state s')) s'
             | None => s'
             end).
  assert (Hoff2 : activated s2 = false) by (subst s2; destruct token; exact Hoff).
  assert (Hev : events s2 = events s') by (subst s2; destruct token; reflexivity).
  assert (Hgate : gateObservers s2 = gateObservers s')
    by (subst s2; destruct token; reflexivity).
  rewrite Hoff2. cbn [fst]. rewrite activated_next_true_spec, setUser_spec.
  cbn [events gateObservers currentUser set_userObservers observed set_timers
       set_events set_gateObservers set_activated set_currentUser].
  rewrite Hev, Hgate, <- app_assoc.
  eexists. split; [reflexivity|]. split.
  - apply in_app_iff. right. apply in_flat_map.
    exists (GateCheck (nextSid s)). split; [exact Hwait | left; reflexivity].
  - intros v [Hin | Hin]%in_app_iff.
    + apply in_flat_map in Hin as (o & _ & Hin).
      destruct (told_no_check _ _ _ _ Hin).
    + apply in_flat_map in Hin as (g & _ & Hin).
      destruct g; simpl in Hin; destruct Hin as [Heq|[]]; [discriminate|].
      injection Heq as _ <-. reflexivity.
Qed.

(** *** The delay of [userRequired$] *)

(** The null that [userRequired$] holds back is not held back for good:
    once 999999 ms have passed since a subscription past the gate met the
    null user, that subscriber is handed the null. *)
Theorem stalled_null_delivered s sid d :
  listens sid s -> (stallDelay <= d)%N ->
  exists news,
    events (advance d (setUser None s)) = events (setUser None s) ++ news /\
    In (UserRequiredEmitted sid None) news.
Proof.
  intros Hin%listens_spec Hd. unfold advance. cbn [events set_events].
  eexists. split; [reflexivity|].
  apply in_map_iff. exists (mkTimer (clock s + stallDelay)%N sid None).
  split; [reflexivity|]. apply filter_In. rewrite setUser_spec. split.
  - cbn. apply in_app_iff. right. apply in_flat_map.
    eexists. split; [exact Hin|]. left. reflexivity.
  - cbn. unfold isDue. cbn. apply N.leb_le. lia.
Qed.

(** *** Token and user *)

Lemma tap_state {A} (next : A -> Service -> Service)
    (error : E -> Service -> Service) (src : Rx.Trace E A) s :
  (forall v acc, state (next v acc) = state acc) ->
  (forall e acc, state (error e acc) = state acc) ->
  state (fst (subscribe (tap next error src) s)) = state s.
Proof.
  intros Hnext Herror. unfold subscribe, tap. cbn [fst].
  assert (Hfold : state (foldl (fun acc v => next v acc) s (Rx.emitted src)) = state s).
  { generalize (Rx.emitted src) as vs. intros vs. revert s.
    induction vs as [|v vs IH]; intros s; simpl; [reflexivity|].
    rewrite IH. apply Hnext. }
  destruct (Rx.ending src); try exact Hfold.
  rewrite Herror. exact Hfold.
Qed.

(** The session never touches the token holder on its own: whatever the
    ports answer, values, errors or nothing, [attempt], [register] and
    [logout] leave it as it is, at the call and while their observable
    delivers, and so does [setUser]; [activate] changes it only by handing
    its token argument to [setToken], before anything else, and not at all
    when that argument is null. *)
Theorem session_leaves_token s :
  (forall u, state (setUser u s) = state s) /\
  (forall (credentials : R) s1 outcome,
      attempt credentials s = (s1, outcome) ->
      state s1 = state s /\
      forall obs s', outcome = Returned obs ->
                     state (fst (subscribe obs s')) = state s') /\
  (forall (credentials : R) (extra : option X) s1 outcome,
      register credentials extra s = (s1, outcome) ->
      state s1 = state s /\
      forall obs s', outcome = Returned obs ->
                     state (fst (subscribe obs s')) = state s') /\
  (forall s1 outcome,
      logout s = (s1, outcome) ->
      state s1 = state s /\
      forall obs s', outcome = Returned obs ->
                     state (fst (subscribe obs s')) = state s') /\
  (forall (userId : option I) token s1 outcome,
      activate userId token s = (s1, outcome) ->
      state s1 = match token with
                 | Some raw => AuthState.setToken raw (state s)
                 | None => state s
                 end /\
      forall obs s', outcome = Returned obs ->
                     state (fst (subscribe obs s')) = state s').
Proof.
  split; [intros u; apply setUser_state|].
  split; [|split; [|split]].
  - intros credentials s1 outcome. unfold attempt, userFromCredentials.
    destruct (backend s); intros [= <- <-]; (split; [reflexivity|]);
      intros obs s' [= <-].
    apply tap_state; [intros; apply setUser_state | reflexivity].
  - intros credentials extra s1 outcome. unfold register, createUserFromCredentials.
    destruct (backend s); intros [= <- <-]; (split; [reflexivity|]);
      intros obs s' [= <-].
    apply tap_state; [intros; apply setUser_state | reflexivity].
  - intros s1 outcome. unfold logout, deleteUserSession.
    destruct (backend s); intros [= <- <-]; (split; [reflexivity|]);
      intros obs s' [= <-].
    apply tap_state; [intros; apply setUser_state | reflexivity].
  - intros userId token s1 outcome. unfold activate.
    set (s0 := match token with
               | Some raw => set_state (AuthState.setToken raw (state s)) s
               | None => s
               end).
    assert (H0 : state s0 = match token with
                            | Some raw => AuthState.setToken raw (state s)
                            | None => state s
                            end) by (subst s0; destruct token; reflexivity).
    destruct userId as [uid|].
    + destruct (userProvider s0); intros [= <- <-]; (split; [exact H0|]);
        intros obs s' [= <-].
      apply tap_state.
      * intros v acc. transitivity (state (setUser v acc));
          [exact (activated_next_true_state (setUser v acc)) | apply setUser_state].
      * intros e acc. exact (activated_next_true_state acc).
    + destruct (activated s0); intros [= <- <-].
      * split; [exact H0|]. intros obs s' [=].
      * split.
        { transitivity (state (setUser None s0));
            [exact (activated_next_true_state (setUser None s0))|].
          transitivity (state s0); [exact (setUser_state None s0) | exact H0]. }
        intros obs s' [= <-]. reflexivity.
Qed.

(** *** The numbering of the subscriptions *)

Lemma map_observerSid_renewed u obs :
  map observerSid (map (renewed u) obs) = map observerSid obs.
Proof.
  induction obs as [|o obs IH]; [reflexivity|].
  simpl. rewrite IH. destruct o; reflexivity.
Qed.

Lemma told_sid u o (e : Event T) n :
  In e (told u o) -> eventSid e = Some n -> n = observerSid o.
Proof.
  destruct o as [sid|sid last|sid]; simpl.
  - intros [<-|[]] [= <-]. reflexivity.
  - destruct (decide (last = Some (nonNull u))); [intros []|].
    intros [<-|[]] [= <-]. reflexivity.
  - destruct u; intros [<-|[]]; [intros [= <-]; reflexivity | discriminate].
Qed.

Lemma stalled_target now u o (tm : Timer T) :
  In tm (stalled now u o) -> target tm = observerSid o.
Proof.
  destruct o as [sid|sid last|sid], u; simpl; try (intros []; fail).
  intros [<-|[]]. reflexivity.
Qed.

Lemma toldAtGate_sid u g (e : Event T) n :
  In e (toldAtGate u g) -> eventSid e = Some n -> n = gateSid g.
Proof.
  destruct g as [sid|sid]; [apply (told_sid u (UserRequiredInner sid))|].
  simpl. intros [<-|[]] [= <-]. reflexivity.
Qed.

Lemma stalledAtGate_target now u g (tm : Timer T) :
  In tm (stalledAtGate now u g) -> target tm = gateSid g.
Proof.
  destruct g as [sid|sid]; [apply (stalled_target now u (UserRequiredInner sid))|].
  intros [].
Qed.

Lemma joins_sid gates n :
  In n (map observerSid (flat_map joins gates)) -> In n (map gateSid gates).
Proof.
  induction gates as [|g gates IH]; [intros []|].
  simpl. rewrite map_app, in_app_iff. intros [Hin | Hin]; [|right; auto].
  destruct g; simpl in Hin; [destruct Hin as [<-|[]]; left; reflexivity | destruct Hin].
Qed.

Lemma NoDup_joins gates :
  NoDup (map gateSid gates) -> NoDup (map observerSid (flat_map joins gates)).
Proof.
  induction gates as [|g gates IH]; [constructor|].
  simpl. intros [Hnotin Hrest]%NoDup_cons. destruct g as [sid|sid]; simpl.
  - constructor; [|apply IH, Hrest].
    intros Hin%list_elem_of_In%joins_sid. apply Hnotin, list_elem_of_In, Hin.
  - apply IH, Hrest.
Qed.

Lemma NoDup_app_In (l k : list nat) :
  NoDup l -> NoDup k -> (forall n, In n l -> ~ In n k) -> NoDup (l ++ k).
Proof.
  intros Hl Hk Hdisj. apply NoDup_app. split; [exact Hl|]. split; [|exact Hk].
  intros n Hin%list_elem_of_In Hin'%list_elem_of_In. exact (Hdisj n Hin Hin').
Qed.

Lemma NoDup_snoc_fresh (l : list nat) n :
  NoDup l -> (forall m, In m l -> m < n) -> NoDup (l ++ [n]).
Proof.
  intros Hl Hbound. apply NoDup_app_In; [exact Hl | apply NoDup_singleton|].
  intros m Hm [Heq|[]]. subst. specialize (Hbound _ Hm). lia.
Qed.

Lemma wellNumbered_observer s o (evs : list (Event T)) (tms : list (Timer T)) :
  wellNumbered s ->
  observerSid o = nextSid s ->
  (forall e n, In e evs -> eventSid e = Some n -> n = nextSid s) ->
  (forall tm, In tm tms -> target tm = nextSid s) ->
  wellNumbered
    (set_userObservers (userObservers s ++ [o])
       (observed evs tms (set_nextSid (S (nextSid s)) s))).
Proof.
  intros (Ho & Hg & Hdisj & Hob & Hgb & Heb & Htb) Hsid Hevs Htms.
  unfold wellNumbered. cbn. rewrite map_app. cbn. rewrite Hsid.
  split; [apply NoDup_snoc_fresh; assumption|]. split; [exact Hg|].
  split; [|split; [|split; [|split]]].
  - intros n [Hin | [<-|[]]]%in_app_iff; [apply Hdisj, Hin|].
    intros Hin. specialize (Hgb _ Hin). lia.
  - intros n [Hin | [<-|[]]]%in_app_iff; [specialize (Hob _ Hin)|]; lia.
  - intros n Hin. specialize (Hgb _ Hin). lia.
  - intros e n [Hin | Hin]%in_app_iff Hn;
      [specialize (Heb _ _ Hin Hn) | specialize (Hevs _ _ Hin Hn)]; lia.
  - intros tm [Hin | Hin]%in_app_iff;
      [specialize (Htb _ Hin) | specialize (Htms _ Hin)]; lia.
Qed.

Lemma wellNumbered_gate s g :
  wellNumbered s ->
  gateSid g = nextSid s ->
  wellNumbered
    (set_gateObservers (gateObservers s ++ [g]) (set_nextSid (S (nextSid s)) s)).
Proof.
  intros (Ho & Hg & Hdisj & Hob & Hgb & Heb & Htb) Hsid.
  unfold wellNumbered. cbn. rewrite map_app. cbn. rewrite Hsid.
  split; [exact Ho|]. split; [apply NoDup_snoc_fresh; assumption|].
  split; [|split; [|split; [|split]]].
  - intros n Hin [Hin' | [<-|[]]]%in_app_iff; [exact (Hdisj _ Hin Hin')|].
    specialize (Hob _ Hin). lia.
  - intros n Hin. specialize (Hob _ Hin). lia.
  - intros n [Hin | [<-|[]]]%in_app_iff; [specialize (Hgb _ Hin)|]; lia.
  - intros e n Hin Hn. specialize (Heb _ _ Hin Hn). lia.
  - intros tm Hin. specialize (Htb _ Hin). lia.
Qed.

Lemma step_wellNumbered s s' : step s s' -> wellNumbered s -> wellNumbered s'.
Proof.
  intros Hstep Hwn. step_cases Hstep.
  - destruct Hwn as (Ho & Hg & Hdisj & Hob & Hgb & Heb & Htb).
    unfold wellNumbered. cbn. rewrite map_observerSid_renewed.
    repeat split; try assumption.
    + intros e n [Hin | (o & Ho' & Hin)%in_flat_map]%in_app_iff Hn;
        [exact (Heb _ _ Hin Hn)|].
      rewrite (told_sid _ _ _ _ Hin Hn). apply Hob, in_map, Ho'.
    + intros tm [Hin | (o & Ho' & Hin)%in_flat_map]%in_app_iff; [exact (Htb _ Hin)|].
      rewrite (stalled_target _ _ _ _ Hin). apply Hob, in_map, Ho'.
  - destruct Hwn as (Ho & Hg & Hdisj & Hob & Hgb & Heb & Htb).
    unfold wellNumbered. cbn. rewrite map_app.
    split; [|split; [constructor|split; [auto|split; [|split; [|split]]]]].
    + apply NoDup_app_In; [exact Ho | apply NoDup_joins, Hg|].
      intros n Hin Hin'%joins_sid. exact (Hdisj _ Hin Hin').
    + intros n [Hin | Hin%joins_sid]%in_app_iff; auto.
    + intros n [].
    + intros e n [Hin | (g & Hg' & Hin)%in_flat_map]%in_app_iff Hn;
        [exact (Heb _ _ Hin Hn)|].
      rewrite (toldAtGate_sid _ _ _ _ Hin Hn). apply Hgb, in_map, Hg'.
    + intros tm [Hin | (g & Hg' & Hin)%in_flat_map]%in_app_iff; [exact (Htb _ Hin)|].
      rewrite (stalledAtGate_target _ _ _ _ Hin). apply Hgb, in_map, Hg'.
  - exact Hwn.
  - exact Hwn.
  - exact Hwn.
  - apply wellNumbered_observer; [exact Hwn | reflexivity | | intros tm []].
    intros e n [<-|[]] [= <-]. reflexivity.
  - apply wellNumbered_observer; [exact Hwn | reflexivity | | intros tm []].
    intros e n [<-|[]] [= <-]. reflexivity.
  - destruct (activated s).
    + apply wellNumbered_observer; [exact Hwn | reflexivity | |].
      * intros e n Hin Hn.
        exact (told_sid _ (UserRequiredInner (nextSid s)) _ _ Hin Hn).
      * intros tm Hin.
        exact (stalled_target _ _ (UserRequiredInner (nextSid s)) _ Hin).
    + apply wellNumbered_gate; [exact Hwn | reflexivity].
  - destruct (activated s).
    + destruct Hwn as (Ho & Hg & Hdisj & Hob & Hgb & Heb & Htb).
      unfold wellNumbered. cbn. rewrite app_nil_r.
      repeat split; try assumption.
      * intros n Hin. specialize (Hob _ Hin). lia.
      * intros n Hin. specialize (Hgb _ Hin). lia.
      * intros e n [Hin | [<-|[]]]%in_app_iff Hn;
          [specialize (Heb _ _ Hin Hn); lia | injection Hn as <-; lia].
      * intros tm Hin. specialize (Htb _ Hin). lia.
    + apply wellNumbered_gate; [exact Hwn | reflexivity].
  - destruct Hwn as (Ho & Hg & Hdisj & Hob & Hgb & Heb & Htb).
    unfold wellNumbered, advance. cbn.
    repeat split; try assumption.
    + intros e n [Hin | (tm & <- & [Htm _]%filter_In)%in_map_iff]%in_app_iff Hn;
        [exact (Heb _ _ Hin Hn)|].
      injection Hn as <-. exact (Htb _ Htm).
    + intros tm [Htm _]%filter_In. exact (Htb _ Htm).
Qed.

Lemma reachable_wellNumbered s : reachable s -> wellNumbered s.
Proof.
  intros (st & b & p & Hs). revert s Hs. apply (rtc_ind_r wellNumbered).
  - unfold wellNumbered. cbn. repeat split; try constructor; intros; contradiction.
  - intros s s' _ Hstep IH. exact (step_wellNumbered _ _ Hstep IH).
Qed.

(** *** What one subscriber is handed *)

Lemma flat_map_flat_map {A B C} (f : B -> list C) (g : A -> list B) l :
  flat_map f (flat_map g l) = flat_map (fun x => flat_map f (g x)) l.
Proof.
  induction l as [|x l IH]; [reflexivity|].
  simpl. rewrite flat_map_app, IH. reflexivity.
Qed.

Lemma flat_map_nil {A B} (f : A -> list B) l :
  (forall x, In x l -> f x = []) -> flat_map f l = [].
Proof.
  induction l as [|x l IH]; [reflexivity|]. intros Hnil.
  simpl. rewrite (Hnil x (or_introl eq_refl)), IH; [reflexivity|].
  intros y Hy. apply Hnil. right. exact Hy.
Qed.

(** Among observers with numbers of their own, only the one numbered [sid]
    contributes to what [sid] is handed. *)
Lemma flat_map_unique {B} (f : UserObserver -> list B) sid obs o0 :
  NoDup (map observerSid obs) ->
  In o0 obs -> observerSid o0 = sid ->
  (forall o, observerSid o <> sid -> f o = []) ->
  flat_map f obs = f o0.
Proof.
  intros Hnodup Hin Hsid Hother.
  induction obs as [|o obs IH]; [destruct Hin|].
  simpl in Hnodup. apply NoDup_cons in Hnodup as [Hnotin Hnodup].
  rewrite list_elem_of_In in Hnotin. simpl. destruct Hin as [-> | Hin].
  - rewrite flat_map_nil, app_nil_r; [reflexivity|].
    intros o Ho. apply Hother. intros Heq. apply Hnotin.
    rewrite Hsid, <- Heq. apply in_map, Ho.
  - rewrite (Hother o), (IH Hnodup Hin); [reflexivity|].
    intros Heq. apply Hnotin. rewrite Heq, <- Hsid. apply in_map, Hin.
Qed.

Lemma userSeen_told_other u o sid :
  observerSid o <> sid -> userSeen sid (told u o) = [].
Proof.
  destruct o as [sid'|sid' last|sid']; simpl; intros Hne.
  - apply Nat.eqb_neq in Hne. rewrite Hne. reflexivity.
  - destruct (decide (last = Some (nonNull u))); reflexivity.
  - destruct u; reflexivity.
Qed.

Lemma authenticatedSeen_told_other u o sid :
  observerSid o <> sid -> authenticatedSeen sid (told u o) = [].
Proof.
  destruct o as [sid'|sid' last|sid']; simpl; intros Hne.
  - reflexivity.
  - destruct (decide (last = Some (nonNull u))); [reflexivity|].
    simpl. apply Nat.eqb_neq in Hne. rewrite Hne. reflexivity.
  - destruct u; reflexivity.
Qed.

Lemma seen_fresh s n :
  wellNumbered s -> nextSid s <= n ->
  userSeen n (events s) = [] /\ authenticatedSeen n (events s) = [].
Proof.
  intros (_ & _ & _ & _ & _ & Heb & _) Hn.
  split; apply flat_map_nil; intros e He; destruct e as [sid v|sid v|sid v| |sid v];
    try reflexivity;
    specialize (Heb _ sid He eq_refl);
    (destruct (Nat.eqb_spec sid n); [lia | reflexivity]).
Qed.

Lemma setUser_userSeen s sid u :
  wellNumbered s -> In (UserStream sid) (userObservers s) ->
  userSeen sid (events (setUser u s)) = userSeen sid (events s) ++ [u].
Proof.
  intros (Ho & _) Hin. rewrite setUser_spec.
  change (events (set_userObservers _ _))
    with (events s ++ flat_map (told u) (userObservers s)).
  unfold userSeen at 1. rewrite flat_map_app. fold (userSeen sid (events s)).
  rewrite flat_map_flat_map.
  rewrite (flat_map_unique _ sid _ (UserStream sid) Ho Hin eq_refl).
  - simpl. rewrite Nat.eqb_refl. reflexivity.
  - intros o Hne. exact (userSeen_told_other u o sid Hne).
Qed.

Lemma setUsers_reachable s us :
  reachable s -> reachable (foldl (fun acc u => setUser u acc) s us).
Proof.
  revert s. induction us as [|u us IH]; intros s Hs; [exact Hs|].
  simpl. apply IH. eapply reachable_steps; [exact Hs | apply setUser_steps].
Qed.

(** A subscriber of [user$] is handed the current user when it subscribes
    and from then on every user that is set, once each and in order, also
    when it is the same as before; the [user] getter gives the last one. *)
Theorem user_stream_exact s :
  reachable s ->
  (userSeen (nextSid s) (events (subscribe_user s)) = [user s] /\
   In (UserStream (nextSid s)) (userObservers (subscribe_user s))) /\
  (forall sid us,
      In (UserStream sid) (userObservers s) ->
      let s' := foldl (fun acc u => setUser u acc) s us in
      userSeen sid (events s') = userSeen sid (events s) ++ us /\
      user s' = default (user s) (last us)).
Proof.
  intros Hs. split.
  - rewrite subscribe_user_spec. cbn [events userObservers set_userObservers observed
      set_timers set_events set_nextSid]. split.
    + unfold userSeen. rewrite flat_map_app. fold (userSeen (nextSid s) (events s)).
      destruct (seen_fresh s (nextSid s) (reachable_wellNumbered s Hs)) as [-> _];
        [lia|].
      simpl. rewrite Nat.eqb_refl. reflexivity.
    + apply in_app_iff. right. left. reflexivity.
  - intros sid us. revert s Hs. induction us as [|u us IH]; intros s Hs Hin; simpl.
    + rewrite app_nil_r. split; reflexivity.
    + destruct (IH (setUser u s)) as [Hseen Huser].
      * eapply reachable_steps; [exact Hs | apply setUser_steps].
      * rewrite setUser_spec. cbn. apply in_map_iff.
        exists (UserStream sid). split; [reflexivity | exact Hin].
      * rewrite Hseen, Huser, setUser_user.
        rewrite (setUser_userSeen s sid u (reachable_wellNumbered s Hs) Hin).
        rewrite <- app_assoc. split; [reflexivity|].
        rewrite last_cons. destruct (last us); reflexivity.
Qed.

Lemma noRepeats_snoc pre v w :
  noRepeats (pre ++ [v]) = true -> v <> w -> noRepeats ((pre ++ [v]) ++ [w]) = true.
Proof.
  intros Hpre Hne. induction pre as [|x pre IH]; simpl.
  - destruct v, w; try reflexivity; congruence.
  - simpl in Hpre. destruct (pre ++ [v]) as [|y rest] eqn:Hrest.
    + destruct pre; discriminate.
    + simpl. apply andb_prop in Hpre as [Hxy Hrest']. rewrite Hxy. simpl.
      apply IH. exact Hrest'.
Qed.

Lemma history_quiet s s' news :
  events s' = events s ++ news ->
  (forall sid, authenticatedSeen sid news = []) ->
  (forall sid last, In (AuthenticatedStream sid last) (userObservers s') ->
                    In (AuthenticatedStream sid last) (userObservers s)) ->
  authenticatedHistory s -> authenticatedHistory s'.
Proof.
  intros Hevents Hquiet Hobs Hhist sid last Hin.
  destruct (Hhist sid last (Hobs _ _ Hin)) as (pre & v & Hseen & Hlast & Hrep).
  exists pre, v. split; [|auto].
  rewrite Hevents. unfold authenticatedSeen. rewrite flat_map_app.
  fold (authenticatedSeen sid (events s)). fold (authenticatedSeen sid news).
  rewrite Hquiet, app_nil_r. exact Hseen.
Qed.

Lemma authenticatedSeen_toldAtGate sid u gates :
  authenticatedSeen sid (flat_map (toldAtGate u) gates) = [].
Proof.
  unfold authenticatedSeen. rewrite flat_map_flat_map. apply flat_map_nil.
  intros g _. destruct g, u; reflexivity.
Qed.

Lemma authenticatedSeen_fired sid (tms : list (Timer T)) :
  authenticatedSeen sid (map fire tms) = [].
Proof. induction tms as [|tm tms IH]; [reflexivity | exact IH]. Qed.

Lemma step_history s s' :
  step s s' -> wellNumbered s -> authenticatedHistory s -> authenticatedHistory s'.
Proof.
  intros Hstep Hwn Hhist. step_cases Hstep.
  - intros sid last Hin. cbn [userObservers set_userObservers] in Hin.
    apply renewed_authenticated in Hin as [-> [last0 Hin0]].
    destruct (Hhist _ _ Hin0) as (pre & v & Hseen & -> & Hrep).
    change (events (set_userObservers _ _))
      with (events s ++ flat_map (told u) (userObservers s)).
    unfold authenticatedSeen at 1. rewrite flat_map_app.
    fold (authenticatedSeen sid (events s)). rewrite flat_map_flat_map.
    destruct Hwn as (Ho & _).
    rewrite (flat_map_unique _ sid _ (AuthenticatedStream sid (Some v)) Ho Hin0 eq_refl);
      [|intros o Hne; exact (authenticatedSeen_told_other u o sid Hne)].
    rewrite Hseen. simpl.
    destruct (decide (Some v = Some (nonNull u))) as [[= Heq] | Hne].
    + subst v. exists pre, (nonNull u). simpl. rewrite app_nil_r. auto.
    + exists (pre ++ [v]), (nonNull u). simpl. rewrite Nat.eqb_refl.
      split; [reflexivity|]. split; [reflexivity|].
      apply noRepeats_snoc; [exact Hrep | congruence].
  - eapply history_quiet; [reflexivity | | | exact Hhist].
    + intros sid. apply authenticatedSeen_toldAtGate.
    + cbn [userObservers set_userObservers]. intros sid last [Hin|Hin]%in_app_iff;
        [exact Hin | destruct (joins_no_authenticated _ _ _ Hin)].
  - exact Hhist.
  - exact Hhist.
  - exact Hhist.
  - eapply history_quiet; [reflexivity | | | exact Hhist].
    + intros sid. reflexivity.
    + cbn. intros sid last [Hin|[|[]]]%in_app_iff; [exact Hin | discriminate].
  - intros sid last Hin. cbn [userObservers set_userObservers] in Hin.
    change (events (set_userObservers _ _))
      with (events s ++ [AuthenticatedEmitted (nextSid s) (authenticated s)]).
    unfold authenticatedSeen at 1. rewrite flat_map_app.
    fold (authenticatedSeen sid (events s)). simpl.
    apply in_app_iff in Hin as [Hin | [[= <- <-] | []]].
    + destruct (Hhist _ _ Hin) as (pre & v & Hseen & -> & Hrep).
      destruct Hwn as (_ & _ & _ & Hob & _).
      assert (Hlt : sid < nextSid s).
      { apply Hob. apply (in_map observerSid _ _ Hin). }
      destruct (Nat.eqb_spec (nextSid s) sid); [lia|].
      exists pre, v. rewrite app_nil_r. auto.
    + destruct (seen_fresh s (nextSid s) Hwn) as [_ ->]; [lia|].
      rewrite Nat.eqb_refl. exists [], (authenticated s). auto.
  - destruct (activated s).
    + eapply history_quiet; [reflexivity | | | exact Hhist].
      * intros sid. destruct (currentUser s); reflexivity.
      * cbn. intros sid last [Hin|[|[]]]%in_app_iff; [exact Hin | discriminate].
    + exact Hhist.
  - destruct (activated s).
    + eapply history_quiet; [reflexivity | | | exact Hhist].
      * intros sid. reflexivity.
      * auto.
    + exact Hhist.
  - eapply history_quiet; [reflexivity | | | exact Hhist].
    + intros sid. apply authenticatedSeen_fired.
    + auto.
Qed.

Lemma reachable_history s : reachable s -> authenticatedHistory s.
Proof.
  intros Hs. pose proof Hs as (st & b & p & Hsteps).
  revert s Hsteps Hs.
  apply (rtc_ind_r (fun s => reachable s -> authenticatedHistory s)).
  - intros _ sid last [].
  - intros s s' Hsteps Hstep IH Hs'.
    assert (Hs : reachable s) by (exists st, b, p; exact Hsteps).
    exact (step_history _ _ Hstep (reachable_wellNumbered s Hs) (IH Hs)).
Qed.

(** [authenticated$] tells a subscriber the state when it subscribes and
    then only the changes: what a subscriber has been handed is never
    empty, never has the same value twice in a row, and ends with the
    value of the [authenticated] getter. *)
Theorem authenticated_stream_changes_only s sid last :
  reachable s ->
  In (AuthenticatedStream sid last) (userObservers s) ->
  exists pre,
    authenticatedSeen sid (events s) = pre ++ [authenticated s] /\
    noRepeats (authenticatedSeen sid (events s)) = true.
Proof.
  intros Hs Hin.
  destruct (reachable_history s Hs sid last Hin) as (pre & v & Hseen & Hlast & Hrep).
  destruct (reachable_inSync s Hs sid last Hin) as [Hsync _].
  assert (v = authenticated s) as -> by congruence.
  exists pre. rewrite Hseen. auto.
Qed.

End AuthServiceMore.

(** ** The further properties on the small application *)

Lemma bare_reachable : AuthService.reachable Scenario.bare.
Proof. exists AuthState.init, None, None. reflexivity. Qed.

Lemma activatedBare_reachable : AuthService.reachable Scenario.activatedBare.
Proof.
  exists AuthState.init, None, None.
  apply (rtc_l _ _ (AuthService.setUser None Scenario.bare));
    [apply AuthService.step_setUser|].
  apply rtc_once, AuthService.step_activated.
Qed.

Lemma attempt_success_witness :
  exists s1 obs s2,
    AuthService.attempt "bob" Examples.withDirectory = (s1, Returned obs) /\
    AuthService.subscribe obs s1 = (s2, Rx.of_ (Some "bob")) /\
    AuthService.user s2 = Some "bob" /\
    AuthService.authenticated s2 = true /\
    AuthService.calls s2
    = AuthService.calls Examples.withDirectory
      ++ [AuthService.CallUserFromCredentials "bob"] /\
    AuthService.state s2 = AuthService.state Examples.withDirectory /\
    AuthService.activated s2 = AuthService.activated Examples.withDirectory.
Proof.
  apply (attempt_success Examples.withDirectory Scenario.exchanger "bob"
           (Some "bob") (Some "bob")); [reflexivity | reflexivity |].
  right. exists Examples.directory. split; reflexivity.
Defined.

Lemma register_success_witness :
  exists s1 obs s2,
    AuthService.register "bob" (Some "admin") Examples.withDirectory
    = (s1, Returned obs) /\
    AuthService.subscribe obs s1 = (s2, Rx.of_ (Some "bob")) /\
    AuthService.user s2 = Some "bob" /\
    AuthService.authenticated s2 = true /\
    AuthService.state s2 = AuthService.state Examples.withDirectory /\
    AuthService.activated s2 = AuthService.activated Examples.withDirectory.
Proof.
  apply (register_success Examples.withDirectory Scenario.exchanger "bob"
           (Some "admin") (Some "bob") (Some "bob")); [reflexivity | reflexivity |].
  right. exists Examples.directory. split; reflexivity.
Defined.

Lemma logout_success_witness :
  exists s1 obs s2,
    AuthService.logout Examples.loggedIn = (s1, Returned obs) /\
    AuthService.subscribe obs s1 = (s2, Rx.of_ tt) /\
    AuthService.user s2 = None /\
    AuthService.authenticated s2 = false /\
    AuthService.calls s2
    = AuthService.calls Examples.loggedIn
      ++ [AuthService.CallDeleteUserSession (AuthService.user Examples.loggedIn)] /\
    AuthService.state s2 = AuthService.state Examples.loggedIn.
Proof.
  apply (logout_success Examples.loggedIn Scenario.exchanger); reflexivity.
Defined.

Lemma exchanger_error_passes_witness :
  exists s1 obs s2,
    AuthService.attempt "bob" Examples.withOffline = (s1, Returned obs) /\
    AuthService.subscribe obs s1 = (s2, Rx.throwError "offline") /\
    AuthService.user s2 = AuthService.user Examples.withOffline.
Proof.
  apply (proj1 (exchanger_error_passes Examples.withOffline Examples.offline "offline"
                  eq_refl) "bob").
  reflexivity.
Defined.

Lemma parseUserObservable_default_witness :
  AuthService.parseUserObservable
    (Rx.mkTrace [Some "alice"; None] (Rx.Errors "offline")) Scenario.wired
  = Rx.mkTrace [Some "alice"; None] (Rx.Errors "offline").
Proof.
  apply (parseUserObservable_default
           (Rx.mkTrace [Some "alice"; None] (Rx.Errors "offline")) Scenario.wired).
  right. exists Scenario.resolver. split; reflexivity.
Defined.

Lemma activate_resolver_succeeds_witness :
  exists s1 obs s2,
    AuthService.activate (Some 7) (Some "Bearer abc123") Examples.withDirectory
    = (s1, Returned obs) /\
    AuthService.subscribe obs s1 = (s2, Rx.of_ (Some "alice")) /\
    AuthService.activated s2 = true /\
    AuthService.user s2 = Some "alice" /\
    AuthService.state s2
    = AuthState.setToken "Bearer abc123" (AuthService.state Examples.withDirectory) /\
    AuthService.calls s2
    = AuthService.calls Examples.withDirectory ++ [AuthService.CallFind 7].
Proof.
  apply (activate_resolver_succeeds Examples.withDirectory 7 (Some "Bearer abc123")
           Examples.directory (Some "alice")); reflexivity.
Defined.

Lemma latch_stays_witness :
  AuthService.gateObservers Scenario.activatedBare = [] /\
  forall s', rtc AuthService.step Scenario.activatedBare s' ->
    AuthService.activated s' = true /\
    AuthService.gateObservers s' = [] /\
    forall token,
      snd (AuthService.activate (@None nat) token s') = Threw ReactivationError.
Proof.
  apply (latch_stays Scenario.activatedBare activatedBare_reachable). reflexivity.
Defined.

Lemma userRequired_waits_for_activation_witness :
  AuthService.silent
    (AuthService.setUser (Some "alice") (AuthService.subscribe_userRequired Scenario.bare)).
Proof.
  apply (userRequired_waits_for_activation Scenario.bare
           (AuthService.setUser (Some "alice")
              (AuthService.subscribe_userRequired Scenario.bare))
           bare_reachable eq_refl);
    [apply rtc_once, AuthService.step_setUser | reflexivity].
Defined.

Lemma userRequired_delivers_at_once_witness :
  AuthService.events
    (AuthService.subscribe_userRequired
       (AuthService.setUser (Some "alice") Scenario.activatedBare))
  = AuthService.events (AuthService.setUser (Some "alice") Scenario.activatedBare)
    ++ [AuthService.UserRequiredEmitted 0 (Some "alice")].
Proof.
  apply (userRequired_delivers_at_once
           (AuthService.setUser (Some "alice") Scenario.activatedBare) "alice");
    reflexivity.
Defined.

Lemma check_resolves_witness :
  exists news,
    AuthService.events
      (fst (AuthService.activate (@None nat) None
              (AuthService.setUser (Some "alice") (AuthService.check Scenario.bare))))
    = AuthService.events
        (AuthService.setUser (Some "alice") (AuthService.check Scenario.bare)) ++ news /\
    In (AuthService.CheckResolved 0 false) news /\
    forall v, In (AuthService.CheckResolved 0 v) news -> v = false.
Proof.
  apply (proj2 (proj2 (proj2
           (proj2 (check_resolves (I := nat) Scenario.bare bare_reachable) eq_refl
              (AuthService.setUser (Some "alice") (AuthService.check Scenario.bare))
              (rtc_once _ _ (AuthService.step_setUser (Some "alice")
                               (AuthService.check Scenario.bare)))
              eq_refl))) None).
Defined.

Lemma stalled_null_delivered_witness :
  exists news,
    AuthService.events
      (AuthService.advance AuthService.stallDelay
         (AuthService.setUser None Scenario.stalledBare))
    = AuthService.events (AuthService.setUser None Scenario.stalledBare) ++ news /\
    In (AuthService.UserRequiredEmitted 0 None) news.
Proof.
  apply (stalled_null_delivered Scenario.stalledBare 0 AuthService.stallDelay);
    [reflexivity | apply N.le_refl].
Defined.

Lemma session_leaves_token_witness :
  AuthService.state (fst (AuthService.attempt "bob" Examples.withDirectory))
  = AuthService.state Examples.withDirectory.
Proof.
  apply (proj1 (proj2 (session_leaves_token Examples.withDirectory)) "bob" _
           (snd (AuthService.attempt "bob" Examples.withDirectory))).
  reflexivity.
Defined.

Lemma user_stream_exact_witness :
  AuthService.userSeen 0 (AuthService.events (AuthService.subscribe_user Scenario.bare))
  = [AuthService.user Scenario.bare].
Proof. apply (user_stream_exact Scenario.bare bare_reachable). Defined.

Lemma authenticated_stream_changes_only_witness :
  exists pre,
    AuthService.authenticatedSeen 0
      (AuthService.events (AuthService.subscribe_authenticated Scenario.bare))
    = pre ++ [AuthService.authenticated (AuthService.subscribe_authenticated Scenario.bare)] /\
    AuthService.noRepeats
      (AuthService.authenticatedSeen 0
         (AuthService.events (AuthService.subscribe_authenticated Scenario.bare)))
    = true.
Proof.
  apply (authenticated_stream_changes_only
           (AuthService.subscribe_authenticated Scenario.bare) 0 (Some false)).
  - exists AuthState.init, None, None.
    apply rtc_once, AuthService.step_subscribe_authenticated.
  - left. reflexivity.
Defined.
